(** * NIST SP 800-90B entropy assessment service: configuration loader and
      assessment orchestrator

    The development has two parts.

    - [Config] embeds [internal/config/config.go]: the environment helpers
      [getEnv], [getEnvAsInt], [getEnvAsInt64], [getEnvAsBool],
      [getEnvAsDuration], the loader [LoadConfig] and [Validate].  The
      properties proved about it are in [ConfigProofs].
    - [Engine] holds the assessment entry points [AssessIID] and
      [AssessNonIID].  Their Go bodies and the native statistical library
      they call are outside the files embedded here (their tests are
      inside), so that part is modelled from the specification and every
      definition there says so.  [EngineProofs] shows that the reported
      [min_entropy] is the minimum of the applicable estimates.
    - [ValidationScript] embeds the choice of a dataset's bit width in
      the shell script that compares the tool with the reference
      binaries; [ValidationScriptProofs] characterises it. *)

From Stdlib Require Import ZArith QArith String Ascii List.
From Stdlib Require Strings.Byte Floats.
From stdpp Require Import base option list gmap strings pretty.

Local Open Scope string_scope.
Local Open Scope Z_scope.

(** ** Go standard library used by the configuration helpers *)

(** The parsers called by the helpers belong to the Go standard library,
    not to the repository.  The helpers only look at whether the returned
    [err] is nil, so a parser is a partial function: [None] stands for a
    non-nil [err].  [int], [int64] and [time.Duration] (nanoseconds) are
    integers; no arithmetic is done on them here. *)
Class GoStdlib := {
  Atoi : string -> option Z;
  ParseInt : string -> Z -> Z -> option Z;
  ParseBool : string -> option bool;
  ParseDuration : string -> option Z
}.

Module Strconv.

(** Value of an ASCII decimal digit. *)
Definition digit (c : ascii) : option Z :=
  let n := Z.of_N (N_of_ascii c) in
  if (48 <=? n) && (n <=? 57) then Some (n - 48) else None.

(** Reads a string made of decimal digits only; the accumulator is the
    value read so far.  The empty string is handled by the callers. *)
Fixpoint digits (acc : Z) (s : string) : option Z :=
  match s with
  | EmptyString => Some acc
  | String c s' =>
      match digit c with
      | Some d => digits (acc * 10 + d) s'
      | None => None
      end
  end.

(** [strconv.ParseUint(s, 10, 64)]: a non-empty run of decimal digits;
    a value above [2^64 - 1] is a range error. *)
Definition ParseUint10 (s : string) : option Z :=
  match s with
  | EmptyString => None
  | _ =>
      match digits 0 s with
      | Some n => if n <? 2 ^ 64 then Some n else None
      | None => None
      end
  end.

(** [strconv.ParseInt(s, 10, bitSize)]: an optional sign, then
    [ParseUint]; the magnitude is checked against [1 << (bitSize - 1)].
    Only base 10 with an explicit bit size is modelled, which is how the
    repository calls it. *)
Definition ParseInt (s : string) (base bitSize : Z) : option Z :=
  if negb (base =? 10) then None else
  match s with
  | EmptyString => None
  | String c s' =>
      let neg := Ascii.eqb c "-" in
      let body := if Ascii.eqb c "+" || neg then s' else s in
      match ParseUint10 body with
      | None => None
      | Some un =>
          let cutoff := 2 ^ (bitSize - 1) in
          if negb neg && (cutoff <=? un) then None
          else if neg && (cutoff <? un) then None
          else Some (if neg then - un else un)
      end
  end.

(** [strconv.Atoi(s)] on a platform whose [int] has 64 bits; its fast
    path for short strings accepts the same strings with the same
    values as the [ParseInt] it falls back to. *)
Definition Atoi (s : string) : option Z := ParseInt s 10 64.

(** [strconv.ParseBool]. *)
Definition ParseBool (s : string) : option bool :=
  if existsb (String.eqb s) ["1"; "t"; "T"; "TRUE"; "true"; "True"] then Some true
  else if existsb (String.eqb s) ["0"; "f"; "F"; "FALSE"; "false"; "False"] then Some false
  else None.

End Strconv.

Module Time.

Definition isDigitOrDot (c : ascii) : bool :=
  Ascii.eqb c "." || bool_decide (is_Some (Strconv.digit c)).

(** [leadingInt]: consumes the leading digits; [None] is its overflow
    error (the value would exceed [1 << 63]). *)
Fixpoint leadingInt (x : Z) (s : string) : option (Z * string) :=
  match s with
  | EmptyString => Some (x, s)
  | String c s' =>
      match Strconv.digit c with
      | None => Some (x, s)
      | Some d =>
          if 2 ^ 63 / 10 <? x then None
          else
            let x' := x * 10 + d in
            if 2 ^ 63 <? x' then None else leadingInt x' s'
      end
  end.

(** [float64(n)] for a [uint64]: the nearest double, ties to even.  A
    63-bit value is converted directly; a larger one is halved with its
    low bit kept sticky, converted and doubled, which rounds the same. *)
Definition float64_of_uint64 (n : Z) : PrimFloat.float :=
  if n <? 2 ^ 63 then PrimFloat.of_uint63 (Uint63.of_Z n)
  else
    PrimFloat.mul
      (PrimFloat.of_uint63 (Uint63.of_Z (Z.lor (Z.shiftr n 1) (Z.land n 1))))
      (PrimFloat.of_uint63 (Uint63.of_Z 2)).

(** [uint64(x)] for a double that is not negative and below [2^64]: the
    integer part. *)
Definition uint64_of_float64 (x : PrimFloat.float) : Z :=
  match FloatOps.Prim2SF x with
  | SpecFloat.S754_finite false m e =>
      if 0 <=? e then Z.pos m * 2 ^ e else Z.pos m / 2 ^ (- e)
  | _ => 0
  end.

(** [leadingFraction]: consumes the leading digits, keeping the value
    [x] and its [scale] (a power of ten, a [float64]) until the next
    digit would overflow; it never fails. *)
Fixpoint leadingFraction (x : Z) (scale : PrimFloat.float) (overflow : bool)
    (s : string) : Z * PrimFloat.float * string :=
  match s with
  | EmptyString => (x, scale, s)
  | String c s' =>
      match Strconv.digit c with
      | None => (x, scale, s)
      | Some d =>
          if overflow then leadingFraction x scale true s'
          else if (2 ^ 63 - 1) / 10 <? x then leadingFraction x scale true s'
          else
            let y := x * 10 + d in
            if 2 ^ 63 <? y then leadingFraction x scale true s'
            else
              leadingFraction y
                (PrimFloat.mul scale (float64_of_uint64 10)) false s'
      end
  end.

(** The unit: the longest prefix without a digit or a period. *)
Fixpoint unitSpan (s : string) : string * string :=
  match s with
  | EmptyString => (EmptyString, EmptyString)
  | String c s' =>
      if isDigitOrDot c then (EmptyString, s)
      else let (u, r) := unitSpan s' in (String c u, r)
  end.

Definition micro_sign : string :=
  String (ascii_of_nat 194) (String (ascii_of_nat 181) EmptyString).
Definition greek_mu : string :=
  String (ascii_of_nat 206) (String (ascii_of_nat 188) EmptyString).

(** [unitMap], in nanoseconds. *)
Definition unitMap (u : string) : option Z :=
  if String.eqb u "ns" then Some 1
  else if String.eqb u "us" then Some 1000
  else if String.eqb u (micro_sign ++ "s") then Some 1000
  else if String.eqb u (greek_mu ++ "s") then Some 1000
  else if String.eqb u "ms" then Some 1000000
  else if String.eqb u "s" then Some 1000000000
  else if String.eqb u "m" then Some 60000000000
  else if String.eqb u "h" then Some 3600000000000
  else None.

(** The loop of [time.ParseDuration] over the terms (digits, an optional
    period and more digits, then a unit); [d] is the [uint64] total so
    far.  Each round consumes at least two characters, so the length of
    the input is enough fuel.  The contribution of a fraction is
    [uint64(float64(f) * (float64(unit) / scale))], computed in double
    precision as in Go. *)
Fixpoint terms (fuel : nat) (d : Z) (s : string) : option Z :=
  match s, fuel with
  | EmptyString, _ => Some d
  | String _ _, O => None
  | String c _, S fuel' =>
      if negb (isDigitOrDot c) then None else
      match leadingInt 0 s with
      | None => None
      | Some (v, s1) =>
          let pre := negb (String.length s =? String.length s1)%nat in
          let '(f, scale, s2, post) :=
            match s1 with
            | String "."%char t =>
                let '(f, scale, r) :=
                  leadingFraction 0 (float64_of_uint64 1) false t in
                (f, scale, r, negb (String.length t =? String.length r)%nat)
            | _ => (0, float64_of_uint64 1, s1, false)
            end in
          if negb pre && negb post then None else
          let (u, s3) := unitSpan s2 in
          match unitMap u with
          | None => None
          | Some unit =>
              if 2 ^ 63 / unit <? v then None else
              let v1 := v * unit in
              let v2 :=
                if 0 <? f then
                  v1 + uint64_of_float64
                         (PrimFloat.mul (float64_of_uint64 f)
                            (PrimFloat.div (float64_of_uint64 unit) scale))
                else v1 in
              if (0 <? f) && (2 ^ 63 <? v2) then None else
              let d' := (d + v2) mod 2 ^ 64 in
              if 2 ^ 63 <? d' then None else terms fuel' d' s3
          end
      end
  end.

(** [time.ParseDuration], result in nanoseconds. *)
Definition ParseDuration (s : string) : option Z :=
  let neg := match s with String c _ => Ascii.eqb c "-" | _ => false end in
  let s1 :=
    match s with
    | String c s' => if Ascii.eqb c "-" || Ascii.eqb c "+" then s' else s
    | EmptyString => s
    end in
  if String.eqb s1 "0" then Some 0
  else if String.eqb s1 "" then None
  else
    match terms (String.length s1) 0 s1 with
    | None => None
    | Some d =>
        if neg then Some (- d)
        else if 2 ^ 63 - 1 <? d then None else Some d
    end.

End Time.

(** The standard library as the helpers see it. *)
#[export] Instance go_stdlib : GoStdlib := {|
  Atoi := Strconv.Atoi;
  ParseInt := Strconv.ParseInt;
  ParseBool := Strconv.ParseBool;
  ParseDuration := Time.ParseDuration
|}.

(** ** internal/config/config.go *)

Module Config.

(** [Config] holds the microservice configuration. *)
Record Config := {
  ServerPort : Z;
  ServerHost : string;
  GRPCEnabled : bool;
  GRPCPort : Z;
  LogLevel : string;
  MaxUploadSize : Z;
  Timeout : Z;
  MetricsEnabled : bool;
  AuthEnabled : bool;
  AuthIssuer : string;
  AuthAudience : string;
  AuthJWKSURL : string
}.

(** The errors built by [Validate] with [fmt.Errorf], one constructor
    per format string, carrying the formatted value. *)
Inductive ConfigError :=
| InvalidServerPort (port : Z)
| InvalidGRPCPort (port : Z)
| MaxUploadSizeTooSmall (size : Z)
| InvalidLogLevel (level : string)
| AuthRequiresGRPC
| AuthIssuerRequired
| AuthAudienceRequired.

(** The text of each error, as [err.Error()] gives it. *)
Definition Error (e : ConfigError) : string :=
  match e with
  | InvalidServerPort p =>
      "invalid server port: " ++ pretty p ++ " (must be 1-65535)"
  | InvalidGRPCPort p =>
      "invalid gRPC port: " ++ pretty p ++ " (must be 1-65535)"
  | MaxUploadSizeTooSmall n =>
      "max upload size too small: " ++ pretty n ++ " (must be at least 1024 bytes)"
  | InvalidLogLevel l =>
      "invalid log level: " ++ l ++ " (must be debug, info, warn, or error)"
  | AuthRequiresGRPC => "authentication requires gRPC to be enabled"
  | AuthIssuerRequired => "invalid auth issuer: required when AUTH_ENABLED=true"
  | AuthAudienceRequired => "invalid auth audience: required when AUTH_ENABLED=true"
  end.

(** The process environment: the variables that are set, with their
    values.  [os.Getenv] gives the empty string for a variable that is
    not set. *)
Definition Getenv (env : gmap string string) (key : string) : string :=
  default "" (env !! key).

Definition validLogLevels : gmap string bool :=
  <["debug" := true]> (<["info" := true]> (<["warn" := true]> (<["error" := true]> ∅))).

(** [Validate] checks if the configuration is valid; [None] is the nil
    error.  Indexing the Go map with an absent key gives [false]. *)
Definition Validate (c : Config) : option ConfigError :=
  if (ServerPort c <? 1) || (65535 <? ServerPort c) then
    Some (InvalidServerPort (ServerPort c))
  else if GRPCEnabled c && ((GRPCPort c <? 1) || (65535 <? GRPCPort c)) then
    Some (InvalidGRPCPort (GRPCPort c))
  else if MaxUploadSize c <? 1024 then
    Some (MaxUploadSizeTooSmall (MaxUploadSize c))
  else if negb (default false (validLogLevels !! LogLevel c)) then
    Some (InvalidLogLevel (LogLevel c))
  else if AuthEnabled c then
    if negb (GRPCEnabled c) then Some AuthRequiresGRPC
    else if String.eqb (AuthIssuer c) "" then Some AuthIssuerRequired
    else if String.eqb (AuthAudience c) "" then Some AuthAudienceRequired
    else None
  else None.

Definition Minute : Z := 60 * 1000000000.

Section Helpers.
Context `{GoStdlib}.
Variable env : gmap string string.

Definition getEnv (key defaultValue : string) : string :=
  let value := Getenv env key in
  if negb (String.eqb value "") then value else defaultValue.

Definition getEnvAsInt (key : string) (defaultValue : Z) : Z :=
  let valueStr := Getenv env key in
  if String.eqb valueStr "" then defaultValue
  else
    match Atoi valueStr with
    | None => defaultValue
    | Some value => value
    end.

Definition getEnvAsInt64 (key : string) (defaultValue : Z) : Z :=
  let valueStr := Getenv env key in
  if String.eqb valueStr "" then defaultValue
  else
    match ParseInt valueStr 10 64 with
    | None => defaultValue
    | Some value => value
    end.

Definition getEnvAsBool (key : string) (defaultValue : bool) : bool :=
  let valueStr := Getenv env key in
  if String.eqb valueStr "" then defaultValue
  else
    match ParseBool valueStr with
    | None => defaultValue
    | Some value => value
    end.

Definition getEnvAsDuration (key : string) (defaultValue : Z) : Z :=
  let valueStr := Getenv env key in
  if String.eqb valueStr "" then defaultValue
  else
    match ParseDuration valueStr with
    | None => defaultValue
    | Some value => value
    end.

(** The struct literal at the top of [LoadConfig]. *)
Definition fromEnv : Config := {|
  ServerPort := getEnvAsInt "SERVER_PORT" 8080;
  ServerHost := getEnv "SERVER_HOST" "0.0.0.0";
  GRPCEnabled := getEnvAsBool "GRPC_ENABLED" false;
  GRPCPort := getEnvAsInt "GRPC_PORT" 9090;
  LogLevel := getEnv "LOG_LEVEL" "info";
  MaxUploadSize := getEnvAsInt64 "MAX_UPLOAD_SIZE" (100 * 1024 * 1024);
  Timeout := getEnvAsDuration "TIMEOUT" (5 * Minute);
  MetricsEnabled := getEnvAsBool "METRICS_ENABLED" true;
  AuthEnabled := getEnvAsBool "AUTH_ENABLED" false;
  AuthIssuer := getEnv "AUTH_ISSUER" "";
  AuthAudience := getEnv "AUTH_AUDIENCE" "";
  AuthJWKSURL := getEnv "AUTH_JWKS_URL" ""
|}.

(** [LoadConfig] loads the configuration from the environment with
    defaults: [inr config] for [(config, nil)], [inl err] for
    [(nil, err)]. *)
Definition LoadConfig : ConfigError + Config :=
  let config := fromEnv in
  match Validate config with
  | Some err => inl err
  | None => inr config
  end.

(** The value does not parse for the helper that reads the variable. *)
Definition malformed (key value : string) : Prop :=
  (key ∈ ["SERVER_PORT"; "GRPC_PORT"] /\ Atoi value = None) \/
  (key = "MAX_UPLOAD_SIZE" /\ ParseInt value 10 64 = None) \/
  (key ∈ ["GRPC_ENABLED"; "METRICS_ENABLED"; "AUTH_ENABLED"] /\
   ParseBool value = None) \/
  (key = "TIMEOUT" /\ ParseDuration value = None).

End Helpers.

(** What [Validate] requires of a configuration. *)
Definition valid (c : Config) : Prop :=
  1 <= ServerPort c <= 65535 /\
  (GRPCEnabled c = true -> 1 <= GRPCPort c <= 65535) /\
  1024 <= MaxUploadSize c /\
  LogLevel c ∈ ["debug"; "info"; "warn"; "error"] /\
  (AuthEnabled c = true ->
   GRPCEnabled c = true /\ AuthIssuer c <> "" /\ AuthAudience c <> "").

(** The rules of [Validate] in the order it checks them: [rejects c e]
    when [e] is the error of the first rule that [c] breaks. *)
Inductive rejects (c : Config) : ConfigError -> Prop :=
| rejects_server_port :
    ~ (1 <= ServerPort c <= 65535) ->
    rejects c (InvalidServerPort (ServerPort c))
| rejects_grpc_port :
    1 <= ServerPort c <= 65535 ->
    GRPCEnabled c = true -> ~ (1 <= GRPCPort c <= 65535) ->
    rejects c (InvalidGRPCPort (GRPCPort c))
| rejects_upload_size :
    1 <= ServerPort c <= 65535 ->
    (GRPCEnabled c = true -> 1 <= GRPCPort c <= 65535) ->
    MaxUploadSize c < 1024 ->
    rejects c (MaxUploadSizeTooSmall (MaxUploadSize c))
| rejects_log_level :
    1 <= ServerPort c <= 65535 ->
    (GRPCEnabled c = true -> 1 <= GRPCPort c <= 65535) ->
    1024 <= MaxUploadSize c ->
    LogLevel c ∉ ["debug"; "info"; "warn"; "error"] ->
    rejects c (InvalidLogLevel (LogLevel c))
| rejects_auth_without_grpc :
    1 <= ServerPort c <= 65535 ->
    1024 <= MaxUploadSize c ->
    LogLevel c ∈ ["debug"; "info"; "warn"; "error"] ->
    AuthEnabled c = true -> GRPCEnabled c = false ->
    rejects c AuthRequiresGRPC
| rejects_auth_issuer :
    1 <= ServerPort c <= 65535 ->
    1 <= GRPCPort c <= 65535 ->
    1024 <= MaxUploadSize c ->
    LogLevel c ∈ ["debug"; "info"; "warn"; "error"] ->
    AuthEnabled c = true -> GRPCEnabled c = true ->
    AuthIssuer c = "" ->
    rejects c AuthIssuerRequired
| rejects_auth_audience :
    1 <= ServerPort c <= 65535 ->
    1 <= GRPCPort c <= 65535 ->
    1024 <= MaxUploadSize c ->
    LogLevel c ∈ ["debug"; "info"; "warn"; "error"] ->
    AuthEnabled c = true -> GRPCEnabled c = true ->
    AuthIssuer c <> "" -> AuthAudience c = "" ->
    rejects c AuthAudienceRequired.

(** The defaults written in [LoadConfig]. *)
Definition defaults : Config := {|
  ServerPort := 8080;
  ServerHost := "0.0.0.0";
  GRPCEnabled := false;
  GRPCPort := 9090;
  LogLevel := "info";
  MaxUploadSize := 100 * 1024 * 1024;
  Timeout := 5 * Minute;
  MetricsEnabled := true;
  AuthEnabled := false;
  AuthIssuer := "";
  AuthAudience := "";
  AuthJWKSURL := ""
|}.

(** The variables [LoadConfig] reads. *)
Definition variables : list string :=
  ["SERVER_PORT"; "SERVER_HOST"; "GRPC_ENABLED"; "GRPC_PORT"; "LOG_LEVEL";
   "MAX_UPLOAD_SIZE"; "TIMEOUT"; "METRICS_ENABLED"; "AUTH_ENABLED";
   "AUTH_ISSUER"; "AUTH_AUDIENCE"; "AUTH_JWKS_URL"].

(** The variable is set to a non-empty value that [parse] reads as [a]. *)
Definition set_to (env : gmap string string) (key : string)
    {A} (parse : string -> option A) (a : A) : Prop :=
  exists value, env !! key = Some value /\ value <> "" /\ parse value = Some a.

End Config.

(** ** The dataset loop of the validation script *)

(** The script that compares the Go tool with the reference binaries is
    a shell script; its [main] picks the bit width of a dataset from the
    path of the file with a [case] statement. *)
Module ValidationScript.

(** Whether [s] starts with [sub]. *)
Fixpoint has_prefix (sub s : string) : bool :=
  match sub, s with
  | EmptyString, _ => true
  | String a sub', String b s' => Ascii.eqb a b && has_prefix sub' s'
  | String _ _, EmptyString => false
  end.

(** Whether [sub] occurs in [s]: what the shell pattern [*sub*] tests. *)
Fixpoint contains (s sub : string) : bool :=
  has_prefix sub s ||
  match s with
  | EmptyString => false
  | String _ s' => contains s' sub
  end.

(** The [case "$f" in ... esac] of [main], after [bits=8]: the first
    pattern that matches decides. *)
Definition dataset_bits (f : string) : Z :=
  if contains f "biased-random-bits" || contains f "truerand_1bit" then 1
  else if contains f "1bit" then 1
  else if contains f "4bit" then 4
  else if contains f "8bit" then 8
  else if contains f "biased-random-bytes" then 8
  else 8.

End ValidationScript.

(** ** The assessment orchestrator *)

Module Engine.

(** Modelled from the spec: the two paths of an assessment; the Go
    type is missing from the sources. *)
Inductive TestType := IID | NonIID.

(** Modelled from the spec: the error values of the engine, whose Go
    definitions are missing.  [InvalidInput] carries the human-readable
    cause; [AssessmentFailed] names the offending sub-test and carries
    the diagnostic of the underlying statistical computation. *)
Inductive Error :=
| InvalidInput (msg : string)
| AssessmentFailed (test : string) (diagnostic : string).

(** Modelled from the spec: what one sub-test of a battery hands back;
    the sub-tests are missing (they live in the native statistical
    library).  A sub-test gives an entropy estimate in bits per symbol,
    or reports that it cannot run on this input, or reports that its
    computation did not converge or hit an internal fault.  An estimate
    is a rational number here. *)
Inductive Outcome :=
| Estimate (h : Q)
| NotApplicable
| Fault (diagnostic : string).

(** Modelled from the spec: the SampleSet, missing from the sources: the
    symbols in order, unsigned integers of at most [2^bits_per_symbol - 1],
    and their bit width. *)
Record SampleSet := {
  symbols : list Z;
  bits_per_symbol : Z
}.

(** Modelled from the spec: the TestResult, missing from the sources.
    The estimate is absent when the test is not applicable, which is
    the applicability flag. *)
Record TestResult := {
  name : string;
  estimate : option Q
}.

(** Modelled from the spec: the AssessmentResult, missing from the
    sources, with the fields the spec determines: the path taken, the
    binding estimate, the per-test breakdown in evaluation order, the
    number of symbols and the bit width. *)
Record AssessmentResult := {
  test_type : TestType;
  min_entropy : Q;
  breakdown : list TestResult;
  data_size : nat;
  result_bits_per_symbol : Z
}.

(** Modelled from the spec: one sub-test of a battery, missing from the
    sources: a function of the read-only SampleSet.  The verbosity and
    the seed of the randomized components are configuration, fixed
    inside it. *)
Record SubTest := {
  st_name : string;
  st_run : SampleSet -> Outcome
}.

(** Modelled from the spec: the statistical library behind the
    orchestrator, missing from the sources: the sub-tests of the IID
    path and of the Non-IID path, each in its fixed evaluation order.
    The spec says that sub-tests that are not applicable do not abort
    the call, and does not say what is reported when none of a battery
    is applicable; [unassessed] stands for that value, whatever it is,
    as a function of the bit width. *)
Class Battery := {
  iid_tests : list SubTest;
  non_iid_tests : list SubTest;
  unassessed : Z -> Q
}.

(** An error or a value: after an error nothing more runs. *)
Definition bind {A B} (m : Error + A) (k : A -> Error + B) : Error + B :=
  match m with
  | inl e => inl e
  | inr a => k a
  end.

Declare Scope engine_scope.
Delimit Scope engine_scope with engine.
Notation "x <- m ;; k" := (bind m (fun x => k))
  (at level 100, m at next level, right associativity) : engine_scope.

(** Modelled from the spec: the symbol a byte holds, its
    [bitsPerSymbol] significant bits; the Go code is missing from the
    sources.  This is how the range of the symbols is enforced at
    entry. *)
Definition symbol_of (bitsPerSymbol : Z) (x : Byte.byte) : Z :=
  Z.land (Z.of_N (Strings.Byte.to_N x)) (2 ^ bitsPerSymbol - 1).

(** Modelled from the spec: the Symbol Model, missing from the sources.
    An empty buffer, a bit width outside [1, 8] and a buffer of one
    symbol are rejected with InvalidInput, in this order; the first two
    messages contain the texts the validation tests look for.  Otherwise
    the SampleSet is built from the significant bits of each byte. *)
Definition symbol_model (data : list Byte.byte) (bitsPerSymbol : Z)
  : Error + SampleSet :=
  match data with
  | [] => inl (InvalidInput "data cannot be empty")
  | _ :: rest =>
      if (bitsPerSymbol <? 1) || (8 <? bitsPerSymbol) then
        inl (InvalidInput "bits_per_symbol must be between 1 and 8")
      else
        match rest with
        | [] => inl (InvalidInput "data must contain at least 2 symbols")
        | _ :: _ =>
            inr {| symbols := map (symbol_of bitsPerSymbol) data;
                   bits_per_symbol := bitsPerSymbol |}
        end
  end.

(** Modelled from the spec: what the orchestrator records for a sub-test
    outcome: an estimate, an absent estimate for a test that is not
    applicable, and no record at all for a fault, which fails the call
    with the sub-test named. *)
Definition record_outcome (t : SubTest) (o : Outcome) : Error + TestResult :=
  match o with
  | Estimate h => inr {| name := st_name t; estimate := Some h |}
  | NotApplicable => inr {| name := st_name t; estimate := None |}
  | Fault diagnostic => inl (AssessmentFailed (st_name t) diagnostic)
  end.

(** Modelled from the spec: driving a battery.  Every sub-test runs on
    the same SampleSet; a NotApplicable outcome is recorded as absent
    and the battery goes on; a fault ends the call. *)
Fixpoint run_battery (ss : SampleSet) (tests : list SubTest)
  : Error + list TestResult :=
  match tests with
  | [] => inr []
  | t :: ts =>
      (r <- record_outcome t (st_run t ss) ;;
       rs <- run_battery ss ts ;;
       inr (r :: rs))%engine
  end.

(** Modelled from the spec: the minimum over the estimates that are
    present.  On an exact tie the estimate listed first is kept. *)
Fixpoint min_estimate (rs : list TestResult) : option Q :=
  match rs with
  | [] => None
  | r :: rs' =>
      match estimate r, min_estimate rs' with
      | None, m => m
      | Some h, None => Some h
      | Some h, Some m => if Qle_bool h m then Some h else Some m
      end
  end.

Section Orchestrator.
Context `{Battery}.

Definition battery (which : TestType) : list SubTest :=
  match which with
  | IID => iid_tests
  | NonIID => non_iid_tests
  end.

(** Modelled from the spec: the Assessment Orchestrator, missing from
    the sources.  It validates through the Symbol Model, drives the
    battery of the chosen path and reports the minimum of the applicable
    estimates with the breakdown.  Only a fault of a sub-test fails a
    valid call; when no sub-test is applicable, the call still returns,
    with the value the spec leaves open. *)
Definition assess (which : TestType) (data : list Byte.byte) (bitsPerSymbol : Z)
  : Error + AssessmentResult :=
  (ss <- symbol_model data bitsPerSymbol ;;
   rs <- run_battery ss (battery which) ;;
   inr {| test_type := which;
          min_entropy := match min_estimate rs with
                         | Some h => h
                         | None => unassessed bitsPerSymbol
                         end;
          breakdown := rs;
          data_size := List.length data;
          result_bits_per_symbol := bitsPerSymbol |})%engine.

(** Modelled from the spec: the two entry points, missing from the
    sources: the orchestrator on the IID path and on the Non-IID path. *)
Definition AssessIID := assess IID.
Definition AssessNonIID := assess NonIID.

End Orchestrator.

(** What the breakdown holds for a sub-test that did not fault. *)
Definition recorded (ss : SampleSet) (t : SubTest) : TestResult :=
  {| name := st_name t;
     estimate := match st_run t ss with
                 | Estimate h => Some h
                 | _ => None
                 end |}.

(** The sub-test reports a fault on this input. *)
Definition faults (ss : SampleSet) (t : SubTest) : Prop :=
  exists diagnostic, st_run t ss = Fault diagnostic.

(** The sub-test is applicable to this input: it gives an estimate. *)
Definition applicable (ss : SampleSet) (t : SubTest) : Prop :=
  exists h, st_run t ss = Estimate h.

(** [h] is the minimum of the estimates of the sub-tests of [tests] that
    are applicable to [ss]: none of them gives less, and one of them
    gives [h] as soon as there is one. *)
Definition is_min_of_applicable (ss : SampleSet) (h : Q) (tests : list SubTest)
  : Prop :=
  (forall t h', t ∈ tests -> st_run t ss = Estimate h' -> (h <= h')%Q) /\
  (Exists (applicable ss) tests ->
   exists t, t ∈ tests /\ st_run t ss = Estimate h).

(** The SampleSet built from a valid buffer. *)
Definition sample_set (data : list Byte.byte) (bitsPerSymbol : Z) : SampleSet :=
  {| symbols := map (symbol_of bitsPerSymbol) data;
     bits_per_symbol := bitsPerSymbol |}.

End Engine.

(** A battery to run the orchestrator on.  Its sub-tests need a minimum
    window; the numbers are arbitrary, only the shape of the outcomes
    matters. *)
Module Sample.
Import Engine.

Definition window_test (nm : string) (window : nat) (h : Q) : SubTest := {|
  st_name := nm;
  st_run := fun ss =>
    if (List.length (symbols ss) <? window)%nat then NotApplicable
    else Estimate h
|}.

Definition faulty_test (nm : string) : SubTest := {|
  st_name := nm;
  st_run := fun ss =>
    match symbols ss with
    | 255 :: _ => Fault "did not converge"
    | _ => NotApplicable
    end
|}.

Definition windowed : Battery := {|
  iid_tests := [window_test "most_common_value" 3 (7 # 2)%Q];
  non_iid_tests :=
    [window_test "most_common_value" 1 (7 # 2)%Q;
     window_test "collision" 3 (5 # 4)%Q;
     window_test "markov" 2 (9 # 4)%Q;
     faulty_test "compression";
     window_test "lz78y" 2 (9 # 4)%Q];
  unassessed := inject_Z
|}.

End Sample.

(** * Properties *)

Example Atoi_8081 : Strconv.Atoi "8081" = Some 8081.
Proof. reflexivity. Qed.
Example Atoi_neg : Strconv.Atoi "-12" = Some (-12).
Proof. reflexivity. Qed.
Example Atoi_malformed : Strconv.Atoi "80a" = None.
Proof. reflexivity. Qed.
Example Atoi_range : Strconv.Atoi "9223372036854775808" = None.
Proof. vm_compute. reflexivity. Qed.
Example ParseBool_T : Strconv.ParseBool "T" = Some true.
Proof. reflexivity. Qed.
Example ParseBool_yes : Strconv.ParseBool "yes" = None.
Proof. reflexivity. Qed.
Example ParseDuration_90s : Time.ParseDuration "90s" = Some 90000000000.
Proof. vm_compute. reflexivity. Qed.
Example ParseDuration_1h30m : Time.ParseDuration "1h30m" = Some 5400000000000.
Proof. vm_compute. reflexivity. Qed.
Example ParseDuration_frac : Time.ParseDuration "-1.5h" = Some (-5400000000000).
Proof. vm_compute. reflexivity. Qed.
(** The fraction goes through double precision: the exact quotient
    would be one nanosecond less. *)
Example ParseDuration_double :
  Time.ParseDuration "0.3333333333333333333h" = Some 1200000000000.
Proof. vm_compute. reflexivity. Qed.
Example ParseDuration_no_unit : Time.ParseDuration "300" = None.
Proof. vm_compute. reflexivity. Qed.
Example ParseDuration_bad_unit : Time.ParseDuration "5 minutes" = None.
Proof. vm_compute. reflexivity. Qed.

Module ConfigProofs.
Import Config.

Section WithStdlib.
Context `{GoStdlib}.
Implicit Types (env : gmap string string) (key value : string).

Lemma Getenv_set env key value :
  env !! key = Some value -> Getenv env key = value.
Proof. intros Hset. unfold Getenv. now rewrite Hset. Qed.

Lemma Getenv_unset env key : env !! key = None -> Getenv env key = "".
Proof. intros Hunset. unfold Getenv. now rewrite Hunset. Qed.

Lemma getEnvAsInt_malformed env key value d :
  env !! key = Some value -> Atoi value = None ->
  getEnvAsInt env key d = d.
Proof.
  intros Hset Hparse. unfold getEnvAsInt.
  rewrite (Getenv_set _ _ _ Hset), Hparse.
  now destruct (String.eqb value "").
Qed.

Lemma getEnvAsInt64_malformed env key value d :
  env !! key = Some value -> ParseInt value 10 64 = None ->
  getEnvAsInt64 env key d = d.
Proof.
  intros Hset Hparse. unfold getEnvAsInt64.
  rewrite (Getenv_set _ _ _ Hset), Hparse.
  now destruct (String.eqb value "").
Qed.

Lemma getEnvAsBool_malformed env key value d :
  env !! key = Some value -> ParseBool value = None ->
  getEnvAsBool env key d = d.
Proof.
  intros Hset Hparse. unfold getEnvAsBool.
  rewrite (Getenv_set _ _ _ Hset), Hparse.
  now destruct (String.eqb value "").
Qed.

Lemma getEnvAsDuration_malformed env key value d :
  env !! key = Some value -> ParseDuration value = None ->
  getEnvAsDuration env key d = d.
Proof.
  intros Hset Hparse. unfold getEnvAsDuration.
  rewrite (Getenv_set _ _ _ Hset), Hparse.
  now destruct (String.eqb value "").
Qed.

(** [LoadConfig] has one source of errors, [Validate]. *)
Lemma LoadConfig_error env err :
  LoadConfig env = inl err <-> Validate (fromEnv env) = Some err.
Proof.
  unfold LoadConfig. destruct (Validate (fromEnv env)) as [e|].
  - split; intros Heq; inversion Heq; reflexivity.
  - split; intros Heq; discriminate Heq.
Qed.

Lemma LoadConfig_success env c :
  LoadConfig env = inr c <-> Validate (fromEnv env) = None /\ c = fromEnv env.
Proof.
  unfold LoadConfig. destruct (Validate (fromEnv env)) as [e|].
  - split; [intros Heq; discriminate Heq | intros [Heq _]; discriminate Heq].
  - split; [intros Heq; inversion Heq; auto | intros [_ ->]; reflexivity].
Qed.

End WithStdlib.

(** Malformed values for every typed variable: the defaults load. *)
Example LoadConfig_all_malformed :
  LoadConfig
    (<["SERVER_PORT" := "abc"]> (<["TIMEOUT" := "soon"]>
      (<["GRPC_ENABLED" := "maybe"]> (<["MAX_UPLOAD_SIZE" := "1e9"]> ∅))))
  = inr {| ServerPort := 8080; ServerHost := "0.0.0.0"; GRPCEnabled := false;
           GRPCPort := 9090; LogLevel := "info"; MaxUploadSize := 104857600;
           Timeout := 300000000000; MetricsEnabled := true;
           AuthEnabled := false; AuthIssuer := ""; AuthAudience := "";
           AuthJWKSURL := "" |}.
Proof. vm_compute. reflexivity. Qed.

(** The default that replaces a malformed value is validated like any
    other value: GRPC_ENABLED=yes reads as [false], and with
    AUTH_ENABLED=true it is [Validate] that rejects the result. *)
Example LoadConfig_malformed_then_rejected :
  LoadConfig (<["AUTH_ENABLED" := "true"]> (<["GRPC_ENABLED" := "yes"]> ∅))
  = inl AuthRequiresGRPC.
Proof. vm_compute. reflexivity. Qed.

Example LoadConfig_port_out_of_range :
  match LoadConfig (<["SERVER_PORT" := "70000"]> ∅) with
  | inl e => Error e
  | inr _ => ""
  end = "invalid server port: 70000 (must be 1-65535)".
Proof. vm_compute. reflexivity. Qed.

(** *** [Validate] *)

Lemma validLogLevels_spec level :
  default false (validLogLevels !! level) = true <->
  level ∈ ["debug"; "info"; "warn"; "error"].
Proof.
  unfold validLogLevels. rewrite !lookup_insert, lookup_empty.
  repeat case_decide; subst; cbn.
  all: split; intros Hin; try reflexivity; try discriminate Hin.
  all: repeat (apply elem_of_cons; first [left; reflexivity | right]).
  all: repeat (apply elem_of_cons in Hin as [Hin|Hin]; [congruence |]).
  all: inversion Hin.
Qed.

Lemma Validate_sound c : Validate c = None -> valid c.
Proof.
  unfold Validate, valid. intros Hv.
  destruct (Z.ltb_spec (ServerPort c) 1); [discriminate Hv |].
  destruct (Z.ltb_spec 65535 (ServerPort c)); [discriminate Hv |].
  cbn [orb] in Hv.
  assert (Hgrpc : GRPCEnabled c = true -> 1 <= GRPCPort c <= 65535).
  { intros Hen. rewrite Hen in Hv. cbn [andb] in Hv.
    destruct (Z.ltb_spec (GRPCPort c) 1); [discriminate Hv |].
    destruct (Z.ltb_spec 65535 (GRPCPort c)); [discriminate Hv |]. lia. }
  destruct (GRPCEnabled c && _); [discriminate Hv |].
  destruct (Z.ltb_spec (MaxUploadSize c) 1024); [discriminate Hv |].
  destruct (default false (validLogLevels !! LogLevel c)) eqn:Hlevel;
    [| discriminate Hv].
  apply validLogLevels_spec in Hlevel. cbn [negb] in Hv.
  split; [lia |]. split; [exact Hgrpc |]. split; [lia |]. split; [exact Hlevel |].
  intros Hauth. rewrite Hauth in Hv.
  destruct (GRPCEnabled c); [| discriminate Hv]. cbn [negb] in Hv.
  destruct (String.eqb_spec (AuthIssuer c) ""); [discriminate Hv |].
  destruct (String.eqb_spec (AuthAudience c) ""); [discriminate Hv |].
  repeat split; assumption.
Qed.

Lemma Validate_complete c : valid c -> Validate c = None.
Proof.
  unfold Validate, valid. intros (Hport & Hgrpc & Hsize & Hlevel & Hauth).
  destruct (Z.ltb_spec (ServerPort c) 1); [lia |].
  destruct (Z.ltb_spec 65535 (ServerPort c)); [lia |]. cbn [orb].
  replace (GRPCEnabled c && ((GRPCPort c <? 1) || (65535 <? GRPCPort c)))
    with false.
  2:{ destruct (GRPCEnabled c); [| reflexivity]. specialize (Hgrpc eq_refl).
      destruct (Z.ltb_spec (GRPCPort c) 1); [lia |].
      destruct (Z.ltb_spec 65535 (GRPCPort c)); [lia |]. reflexivity. }
  destruct (Z.ltb_spec (MaxUploadSize c) 1024); [lia |].
  apply validLogLevels_spec in Hlevel. rewrite Hlevel. cbn [negb].
  destruct (AuthEnabled c); [| reflexivity].
  destruct (Hauth eq_refl) as (-> & Hissuer & Haudience). cbn [negb].
  destruct (String.eqb_spec (AuthIssuer c) ""); [contradiction |].
  destruct (String.eqb_spec (AuthAudience c) ""); [contradiction |]. reflexivity.
Qed.

Lemma validLogLevels_false level :
  default false (validLogLevels !! level) = false <->
  level ∉ ["debug"; "info"; "warn"; "error"].
Proof.
  rewrite <- validLogLevels_spec.
  destruct (default false (validLogLevels !! level)); split; congruence.
Qed.

Lemma Validate_rejects c e : Validate c = Some e -> rejects c e.
Proof.
  unfold Validate. intros Hv.
  destruct (Z.ltb_spec (ServerPort c) 1);
    [inversion Hv; apply rejects_server_port; lia |].
  destruct (Z.ltb_spec 65535 (ServerPort c));
    [inversion Hv; apply rejects_server_port; lia |].
  cbn [orb] in Hv.
  destruct (GRPCEnabled c) eqn:Hgrpc; cbn [andb negb] in Hv.
  - destruct (Z.ltb_spec (GRPCPort c) 1);
      [inversion Hv; apply rejects_grpc_port; auto; lia |].
    destruct (Z.ltb_spec 65535 (GRPCPort c));
      [inversion Hv; apply rejects_grpc_port; auto; lia |].
    cbn [orb] in Hv.
    destruct (Z.ltb_spec (MaxUploadSize c) 1024);
      [inversion Hv; apply rejects_upload_size; auto; lia |].
    destruct (default false (validLogLevels !! LogLevel c)) eqn:Hlevel;
      cbn [negb] in Hv.
    2:{ inversion Hv. apply rejects_log_level; auto; try lia.
        now apply validLogLevels_false. }
    apply validLogLevels_spec in Hlevel.
    destruct (AuthEnabled c) eqn:Hauth; [| discriminate Hv].
    destruct (String.eqb_spec (AuthIssuer c) "");
      [inversion Hv; apply rejects_auth_issuer; auto; lia |].
    destruct (String.eqb_spec (AuthAudience c) "");
      [inversion Hv; apply rejects_auth_audience; auto; lia | discriminate Hv].
  - destruct (Z.ltb_spec (MaxUploadSize c) 1024);
      [inversion Hv; apply rejects_upload_size; auto; try lia; congruence |].
    destruct (default false (validLogLevels !! LogLevel c)) eqn:Hlevel;
      cbn [negb] in Hv.
    2:{ inversion Hv. apply rejects_log_level; auto; try lia; try congruence.
        now apply validLogLevels_false. }
    apply validLogLevels_spec in Hlevel.
    destruct (AuthEnabled c) eqn:Hauth; [| discriminate Hv].
    inversion Hv. apply rejects_auth_without_grpc; auto; lia.
Qed.

Lemma rejects_Validate c e : rejects c e -> Validate c = Some e.
Proof.
  intros Hrej. unfold Validate.
  destruct Hrej as
    [Hport | Hport Hgrpc Hgport | Hport Hgport Hsize | Hport Hgport Hsize Hlevel
     | Hport Hsize Hlevel Hauth Hgrpc | Hport Hgport Hsize Hlevel Hauth Hgrpc Hissuer
     | Hport Hgport Hsize Hlevel Hauth Hgrpc Hissuer Haudience].
  - destruct (Z.ltb_spec (ServerPort c) 1); [reflexivity |].
    destruct (Z.ltb_spec 65535 (ServerPort c)); [reflexivity | lia].
  - destruct (Z.ltb_spec (ServerPort c) 1); [lia |].
    destruct (Z.ltb_spec 65535 (ServerPort c)); [lia |].
    rewrite Hgrpc. cbn [orb andb].
    destruct (Z.ltb_spec (GRPCPort c) 1); [reflexivity |].
    destruct (Z.ltb_spec 65535 (GRPCPort c)); [reflexivity | lia].
  - destruct (Z.ltb_spec (ServerPort c) 1); [lia |].
    destruct (Z.ltb_spec 65535 (ServerPort c)); [lia |]. cbn [orb].
    replace (GRPCEnabled c && ((GRPCPort c <? 1) || (65535 <? GRPCPort c)))
      with false.
    2:{ destruct (GRPCEnabled c); [| reflexivity]. specialize (Hgport eq_refl).
        destruct (Z.ltb_spec (GRPCPort c) 1); [lia |].
        destruct (Z.ltb_spec 65535 (GRPCPort c)); [lia |]. reflexivity. }
    destruct (Z.ltb_spec (MaxUploadSize c) 1024); [reflexivity | lia].
  - destruct (Z.ltb_spec (ServerPort c) 1); [lia |].
    destruct (Z.ltb_spec 65535 (ServerPort c)); [lia |]. cbn [orb].
    replace (GRPCEnabled c && ((GRPCPort c <? 1) || (65535 <? GRPCPort c)))
      with false.
    2:{ destruct (GRPCEnabled c); [| reflexivity]. specialize (Hgport eq_refl).
        destruct (Z.ltb_spec (GRPCPort c) 1); [lia |].
        destruct (Z.ltb_spec 65535 (GRPCPort c)); [lia |]. reflexivity. }
    destruct (Z.ltb_spec (MaxUploadSize c) 1024); [lia |].
    apply validLogLevels_false in Hlevel. now rewrite Hlevel.
  - destruct (Z.ltb_spec (ServerPort c) 1); [lia |].
    destruct (Z.ltb_spec 65535 (ServerPort c)); [lia |].
    rewrite Hgrpc, Hauth. cbn [orb andb negb].
    destruct (Z.ltb_spec (MaxUploadSize c) 1024); [lia |].
    apply validLogLevels_spec in Hlevel. now rewrite Hlevel.
  - destruct (Z.ltb_spec (ServerPort c) 1); [lia |].
    destruct (Z.ltb_spec 65535 (ServerPort c)); [lia |].
    rewrite Hgrpc, Hauth. cbn [orb andb negb].
    destruct (Z.ltb_spec (GRPCPort c) 1); [lia |].
    destruct (Z.ltb_spec 65535 (GRPCPort c)); [lia |]. cbn [orb].
    destruct (Z.ltb_spec (MaxUploadSize c) 1024); [lia |].
    apply validLogLevels_spec in Hlevel. rewrite Hlevel, Hissuer. reflexivity.
  - destruct (Z.ltb_spec (ServerPort c) 1); [lia |].
    destruct (Z.ltb_spec 65535 (ServerPort c)); [lia |].
    rewrite Hgrpc, Hauth. cbn [orb andb negb].
    destruct (Z.ltb_spec (GRPCPort c) 1); [lia |].
    destruct (Z.ltb_spec 65535 (GRPCPort c)); [lia |]. cbn [orb].
    destruct (Z.ltb_spec (MaxUploadSize c) 1024); [lia |].
    apply validLogLevels_spec in Hlevel. rewrite Hlevel, Haudience. cbn [negb].
    destruct (String.eqb_spec (AuthIssuer c) ""); [contradiction | reflexivity].
Qed.

(** *** Variables that are not set, and values read as if they were not *)

Section Unset.
Context `{GoStdlib}.
Implicit Types (env : gmap string string) (key k value : string).

Lemma Getenv_delete_ne env key k :
  key <> k -> Getenv (delete key env) k = Getenv env k.
Proof. intros Hne. unfold Getenv. now rewrite lookup_delete_ne. Qed.

Lemma Getenv_delete env key : Getenv (delete key env) key = "".
Proof. unfold Getenv. now rewrite lookup_delete_eq. Qed.

Lemma getEnv_delete_ne env key k d :
  key <> k -> getEnv (delete key env) k d = getEnv env k d.
Proof. intros Hne. unfold getEnv. now rewrite Getenv_delete_ne. Qed.

Lemma getEnvAsInt_delete_ne env key k d :
  key <> k -> getEnvAsInt (delete key env) k d = getEnvAsInt env k d.
Proof. intros Hne. unfold getEnvAsInt. now rewrite Getenv_delete_ne. Qed.

Lemma getEnvAsInt64_delete_ne env key k d :
  key <> k -> getEnvAsInt64 (delete key env) k d = getEnvAsInt64 env k d.
Proof. intros Hne. unfold getEnvAsInt64. now rewrite Getenv_delete_ne. Qed.

Lemma getEnvAsBool_delete_ne env key k d :
  key <> k -> getEnvAsBool (delete key env) k d = getEnvAsBool env k d.
Proof. intros Hne. unfold getEnvAsBool. now rewrite Getenv_delete_ne. Qed.

Lemma getEnvAsDuration_delete_ne env key k d :
  key <> k -> getEnvAsDuration (delete key env) k d = getEnvAsDuration env k d.
Proof. intros Hne. unfold getEnvAsDuration. now rewrite Getenv_delete_ne. Qed.

Lemma getEnvAsInt_delete env key d : getEnvAsInt (delete key env) key d = d.
Proof. unfold getEnvAsInt. now rewrite Getenv_delete. Qed.

Lemma getEnvAsInt64_delete env key d : getEnvAsInt64 (delete key env) key d = d.
Proof. unfold getEnvAsInt64. now rewrite Getenv_delete. Qed.

Lemma getEnvAsBool_delete env key d : getEnvAsBool (delete key env) key d = d.
Proof. unfold getEnvAsBool. now rewrite Getenv_delete. Qed.

Lemma getEnvAsDuration_delete env key d :
  getEnvAsDuration (delete key env) key d = d.
Proof. unfold getEnvAsDuration. now rewrite Getenv_delete. Qed.

Lemma fromEnv_unset env :
  (forall key, key ∈ variables -> env !! key = None) -> fromEnv env = defaults.
Proof.
  intros Hunset.
  assert (Hget : forall key, key ∈ variables -> Getenv env key = "").
  { intros key Hin. apply Getenv_unset, Hunset, Hin. }
  unfold fromEnv, defaults, getEnv, getEnvAsInt, getEnvAsInt64, getEnvAsBool,
    getEnvAsDuration.
  rewrite !Hget; [reflexivity | ..]; unfold variables;
    repeat (apply elem_of_cons; first [left; reflexivity | right]).
Qed.

Lemma fromEnv_malformed env key value :
  env !! key = Some value -> malformed key value ->
  fromEnv (delete key env) = fromEnv env.
Proof.
  intros Hset [[Hkey Hparse]|[[-> Hparse]|[[Hkey Hparse]|[-> Hparse]]]].
  - assert (Hd : forall d, getEnvAsInt env key d = d)
      by (intros d; now apply getEnvAsInt_malformed with value).
    repeat (apply elem_of_cons in Hkey as [->|Hkey]); [| | inversion Hkey];
      unfold fromEnv;
      rewrite ?getEnvAsInt_delete, ?Hd,
        ?getEnv_delete_ne, ?getEnvAsInt_delete_ne, ?getEnvAsInt64_delete_ne,
        ?getEnvAsBool_delete_ne, ?getEnvAsDuration_delete_ne by discriminate;
      reflexivity.
  - assert (Hd : forall d, getEnvAsInt64 env "MAX_UPLOAD_SIZE" d = d)
      by (intros d; now apply getEnvAsInt64_malformed with value).
    unfold fromEnv.
    rewrite ?getEnvAsInt64_delete, ?Hd,
      ?getEnv_delete_ne, ?getEnvAsInt_delete_ne, ?getEnvAsInt64_delete_ne,
      ?getEnvAsBool_delete_ne, ?getEnvAsDuration_delete_ne by discriminate.
    reflexivity.
  - assert (Hd : forall d, getEnvAsBool env key d = d)
      by (intros d; now apply getEnvAsBool_malformed with value).
    repeat (apply elem_of_cons in Hkey as [->|Hkey]); [| | | inversion Hkey];
      unfold fromEnv;
      rewrite ?getEnvAsBool_delete, ?Hd,
        ?getEnv_delete_ne, ?getEnvAsInt_delete_ne, ?getEnvAsInt64_delete_ne,
        ?getEnvAsBool_delete_ne, ?getEnvAsDuration_delete_ne by discriminate;
      reflexivity.
  - assert (Hd : forall d, getEnvAsDuration env "TIMEOUT" d = d)
      by (intros d; now apply getEnvAsDuration_malformed with value).
    unfold fromEnv.
    rewrite ?getEnvAsDuration_delete, ?Hd,
      ?getEnv_delete_ne, ?getEnvAsInt_delete_ne, ?getEnvAsInt64_delete_ne,
      ?getEnvAsBool_delete_ne, ?getEnvAsDuration_delete_ne by discriminate.
    reflexivity.
Qed.

Lemma fromEnv_ext env1 env2 :
  (forall k, Getenv env1 k = Getenv env2 k) -> fromEnv env1 = fromEnv env2.
Proof.
  intros Hext.
  unfold fromEnv, getEnv, getEnvAsInt, getEnvAsInt64, getEnvAsBool,
    getEnvAsDuration.
  now rewrite !Hext.
Qed.

Lemma Getenv_delete_empty env key k :
  env !! key = Some "" -> Getenv (delete key env) k = Getenv env k.
Proof.
  intros Hset. destruct (decide (key = k)) as [->|Hne].
  - rewrite Getenv_delete. symmetry. now apply Getenv_set.
  - now apply Getenv_delete_ne.
Qed.

End Unset.

(** C10. When a variable is set and its value does not parse (as int,
    int64, bool or duration), [getEnvAsInt], [getEnvAsInt64],
    [getEnvAsBool] and [getEnvAsDuration] return the default they were
    given and report nothing.  So a malformed value never makes
    [LoadConfig] fail: when the value of a typed variable does not parse
    for the helper that reads it, [LoadConfig] returns what it returns
    with the variable not set at all.  [LoadConfig] has no error of its
    own: it returns an error exactly when [Validate] rejects the
    configuration read from the environment, and that error is
    [Validate]'s. *)
Theorem malformed_env_value_gives_default `{GoStdlib}
    (env : gmap string string) (key value : string) :
  env !! key = Some value ->
  (Atoi value = None -> forall d, getEnvAsInt env key d = d) /\
  (ParseInt value 10 64 = None -> forall d, getEnvAsInt64 env key d = d) /\
  (ParseBool value = None -> forall d, getEnvAsBool env key d = d) /\
  (ParseDuration value = None -> forall d, getEnvAsDuration env key d = d) /\
  (malformed key value -> LoadConfig env = LoadConfig (delete key env)) /\
  (forall err, LoadConfig env = inl err <-> Validate (fromEnv env) = Some err) /\
  (Validate (fromEnv env) = None -> LoadConfig env = inr (fromEnv env)).
Proof.
  intros Hset.
  split; [intros Hparse d; eapply getEnvAsInt_malformed; eassumption |].
  split; [intros Hparse d; eapply getEnvAsInt64_malformed; eassumption |].
  split; [intros Hparse d; eapply getEnvAsBool_malformed; eassumption |].
  split; [intros Hparse d; eapply getEnvAsDuration_malformed; eassumption |].
  split.
  { intros Hbad. unfold LoadConfig.
    now rewrite (fromEnv_malformed env key value Hset Hbad). }
  split; [intros err; apply LoadConfig_error |].
  intros Hvalid. apply LoadConfig_success. split; [assumption | reflexivity].
Qed.

Lemma malformed_env_value_witness :
  let env : gmap string string :=
    <["TIMEOUT" := "abc"]> (<["SERVER_PORT" := "8443"]> ∅) in
  getEnvAsInt env "TIMEOUT" 8080 = 8080 /\
  getEnvAsInt64 env "TIMEOUT" 1024 = 1024 /\
  getEnvAsBool env "TIMEOUT" true = true /\
  getEnvAsDuration env "TIMEOUT" (5 * Minute) = 5 * Minute /\
  LoadConfig env = LoadConfig (delete "TIMEOUT" env) /\
  LoadConfig env = inr (fromEnv env).
Proof.
  intros env.
  destruct (malformed_env_value_gives_default env "TIMEOUT" "abc" eq_refl)
    as (Hint & Hint64 & Hbool & Hduration & Hunset & _ & Hload).
  split; [apply Hint; reflexivity |].
  split; [apply Hint64; reflexivity |].
  split; [apply Hbool; reflexivity |].
  split; [apply Hduration; vm_compute; reflexivity |].
  split.
  - apply Hunset. right. right. right. split; [reflexivity |].
    vm_compute. reflexivity.
  - apply Hload. vm_compute. reflexivity.
Defined.

(** X1. [Validate] accepts exactly the configurations with a server port in
    1..65535, a gRPC port in 1..65535 when gRPC is enabled, an upload
    limit of at least 1024 bytes, one of the four log levels, and, when
    authentication is enabled, gRPC enabled with an issuer and an
    audience. *)
Theorem Validate_accepts_exactly_valid (c : Config) :
  Validate c = None <-> valid c.
Proof. split; [apply Validate_sound | apply Validate_complete]. Qed.

(** X2. A configuration returned by [LoadConfig] is the one read from the
    environment and satisfies every rule of [Validate]. *)
Theorem LoadConfig_returns_valid_config `{GoStdlib}
    (env : gmap string string) (c : Config) :
  LoadConfig env = inr c -> c = fromEnv env /\ valid c.
Proof.
  intros Hload. apply LoadConfig_success in Hload as [Hvalid ->].
  split; [reflexivity | now apply Validate_sound].
Qed.

Lemma LoadConfig_returns_valid_config_witness :
  valid (fromEnv (<["SERVER_PORT" := "8443"]> (<["LOG_LEVEL" := "debug"]> ∅))).
Proof.
  apply (LoadConfig_returns_valid_config
           (<["SERVER_PORT" := "8443"]> (<["LOG_LEVEL" := "debug"]> ∅))
           (fromEnv (<["SERVER_PORT" := "8443"]> (<["LOG_LEVEL" := "debug"]> ∅)))).
  vm_compute. reflexivity.
Defined.

(** X3. With none of its variables set, [LoadConfig] succeeds with the
    defaults written in its body, whatever else the environment holds. *)
Theorem LoadConfig_unset_gives_defaults `{GoStdlib} (env : gmap string string) :
  (forall key, key ∈ variables -> env !! key = None) ->
  LoadConfig env = inr defaults.
Proof.
  intros Hunset. apply LoadConfig_success.
  rewrite (fromEnv_unset env Hunset). split; [| reflexivity].
  apply Validate_complete. unfold valid, defaults; cbn.
  split; [lia |]. split; [discriminate |]. split; [lia |].
  split; [| discriminate].
  apply elem_of_cons. right. apply elem_of_cons. now left.
Qed.

Lemma LoadConfig_unset_gives_defaults_witness :
  LoadConfig (<["HOME" := "/root"]> ∅) = inr defaults.
Proof.
  apply LoadConfig_unset_gives_defaults.
  intros key Hin. unfold variables in Hin.
  repeat (apply elem_of_cons in Hin as [->|Hin]; [reflexivity |]).
  inversion Hin.
Defined.

(** X4. A typed variable whose value does not parse is read as if it were
    not set: removing it from the environment changes nothing in what
    [LoadConfig] returns. *)
Theorem malformed_value_reads_as_unset `{GoStdlib}
    (env : gmap string string) (key value : string) :
  env !! key = Some value -> malformed key value ->
  LoadConfig (delete key env) = LoadConfig env.
Proof.
  intros Hset Hbad. unfold LoadConfig.
  now rewrite (fromEnv_malformed env key value Hset Hbad).
Qed.

Lemma malformed_value_reads_as_unset_witness :
  LoadConfig (delete "GRPC_PORT" (<["GRPC_PORT" := "90 90"]> (<["GRPC_ENABLED" := "true"]> ∅)))
  = LoadConfig (<["GRPC_PORT" := "90 90"]> (<["GRPC_ENABLED" := "true"]> ∅)).
Proof.
  apply (malformed_value_reads_as_unset _ "GRPC_PORT" "90 90").
  - reflexivity.
  - left. split; [| reflexivity].
    apply elem_of_cons. right. apply elem_of_cons. now left.
Defined.

(** X5. [Validate] reports the first rule that is broken, in the order
    server port, gRPC port (when gRPC is enabled), upload limit, log
    level, authentication without gRPC, missing issuer, missing
    audience; and it reports nothing else. *)
Theorem Validate_rejects_in_order (c : Config) (e : ConfigError) :
  Validate c = Some e <-> rejects c e.
Proof. split; [apply Validate_rejects | apply rejects_Validate]. Qed.

Example Validate_everything_wrong :
  Validate {| ServerPort := 0; ServerHost := ""; GRPCEnabled := true;
              GRPCPort := 0; LogLevel := "verbose"; MaxUploadSize := 1;
              Timeout := 0; MetricsEnabled := false; AuthEnabled := true;
              AuthIssuer := ""; AuthAudience := ""; AuthJWKSURL := "" |}
  = Some (InvalidServerPort 0).
Proof. reflexivity. Qed.

(** X6. A variable set to the empty string is read as if it were not set,
    by every helper: removing it from the environment changes nothing
    in what [LoadConfig] returns. *)
Theorem empty_value_reads_as_unset `{GoStdlib}
    (env : gmap string string) (key : string) :
  env !! key = Some "" -> LoadConfig (delete key env) = LoadConfig env.
Proof.
  intros Hset. unfold LoadConfig.
  rewrite (fromEnv_ext (delete key env) env); [reflexivity |].
  intros k. now apply Getenv_delete_empty.
Qed.

Lemma empty_value_reads_as_unset_witness :
  LoadConfig (delete "LOG_LEVEL" (<["LOG_LEVEL" := ""]> (<["SERVER_PORT" := "8443"]> ∅)))
  = LoadConfig (<["LOG_LEVEL" := ""]> (<["SERVER_PORT" := "8443"]> ∅)).
Proof.
  apply (empty_value_reads_as_unset _ "LOG_LEVEL"). reflexivity.
Defined.

(** X7. A value that is not empty and parses is the value used, whatever
    the default; for [getEnv] any non-empty value is. *)
Theorem wellformed_value_is_used `{GoStdlib}
    (env : gmap string string) (key value : string) :
  env !! key = Some value -> value <> "" ->
  (forall d, getEnv env key d = value) /\
  (forall n, Atoi value = Some n -> forall d, getEnvAsInt env key d = n) /\
  (forall n, ParseInt value 10 64 = Some n ->
             forall d, getEnvAsInt64 env key d = n) /\
  (forall b, ParseBool value = Some b -> forall d, getEnvAsBool env key d = b) /\
  (forall t, ParseDuration value = Some t ->
             forall d, getEnvAsDuration env key d = t).
Proof.
  intros Hset Hne.
  assert (Hnot : String.eqb value "" = false)
    by (destruct (String.eqb_spec value ""); [contradiction | reflexivity]).
  unfold getEnv, getEnvAsInt, getEnvAsInt64, getEnvAsBool, getEnvAsDuration.
  rewrite (Getenv_set env key value Hset), Hnot. cbn [negb].
  split; [reflexivity |].
  split; [intros n Hparse d; now rewrite Hparse |].
  split; [intros n Hparse d; now rewrite Hparse |].
  split; [intros b Hparse d; now rewrite Hparse |].
  intros t Hparse d. now rewrite Hparse.
Qed.

Lemma wellformed_value_is_used_witness :
  let env : gmap string string := <["TIMEOUT" := "90s"]> ∅ in
  getEnv env "TIMEOUT" "none" = "90s" /\
  getEnvAsDuration env "TIMEOUT" (5 * Minute) = 90000000000.
Proof.
  intros env.
  destruct (wellformed_value_is_used env "TIMEOUT" "90s" eq_refl)
    as (Hstring & _ & _ & _ & Hduration); [discriminate |].
  split; [apply Hstring | apply Hduration; vm_compute; reflexivity].
Defined.

(** *** Where the errors and the values come from *)

Section Provenance.
Context `{GoStdlib}.
Implicit Types (env : gmap string string) (key value : string).

(** What a helper returns is its default or a value that was set and
    parsed. *)
Lemma Getenv_nonempty env key :
  Getenv env key <> "" -> env !! key = Some (Getenv env key).
Proof.
  unfold Getenv. destruct (env !! key) as [v|]; [reflexivity | contradiction].
Qed.

Lemma getEnv_cases env key d :
  getEnv env key d = d \/
  (env !! key = Some (getEnv env key d) /\ getEnv env key d <> "").
Proof.
  unfold getEnv. destruct (String.eqb_spec (Getenv env key) "") as [Heq|Hne].
  - now left.
  - right. cbn [negb]. split; [now apply Getenv_nonempty | assumption].
Qed.

Lemma getEnvAsInt_cases env key d :
  getEnvAsInt env key d = d \/
  exists value, env !! key = Some value /\ value <> "" /\
                Atoi value = Some (getEnvAsInt env key d).
Proof.
  unfold getEnvAsInt. destruct (String.eqb_spec (Getenv env key) "") as [Heq|Hne];
    [now left |].
  destruct (Atoi (Getenv env key)) as [n|] eqn:Hparse; [| now left].
  right. exists (Getenv env key).
  split; [now apply Getenv_nonempty | split; assumption].
Qed.

Lemma getEnvAsInt64_cases env key d :
  getEnvAsInt64 env key d = d \/
  exists value, env !! key = Some value /\ value <> "" /\
                ParseInt value 10 64 = Some (getEnvAsInt64 env key d).
Proof.
  unfold getEnvAsInt64.
  destruct (String.eqb_spec (Getenv env key) "") as [Heq|Hne]; [now left |].
  destruct (ParseInt (Getenv env key) 10 64) as [n|] eqn:Hparse; [| now left].
  right. exists (Getenv env key).
  split; [now apply Getenv_nonempty | split; assumption].
Qed.

Lemma getEnvAsBool_cases env key d :
  getEnvAsBool env key d = d \/
  exists value, env !! key = Some value /\ value <> "" /\
                ParseBool value = Some (getEnvAsBool env key d).
Proof.
  unfold getEnvAsBool.
  destruct (String.eqb_spec (Getenv env key) "") as [Heq|Hne]; [now left |].
  destruct (ParseBool (Getenv env key)) as [n|] eqn:Hparse; [| now left].
  right. exists (Getenv env key).
  split; [now apply Getenv_nonempty | split; assumption].
Qed.

(** X8. Every error of [LoadConfig] is traced to the environment.  A
    port or size error carries the number parsed from the non-empty
    value of its variable, and a gRPC port error also needs
    GRPC_ENABLED parsed as true, so a default or a malformed value of
    these variables never causes such an error.  A log level error
    carries the non-empty value of LOG_LEVEL.  Every authentication
    error needs AUTH_ENABLED parsed as true; the gRPC one arises when
    GRPC_ENABLED is not set to a value parsed as true (not set, empty,
    malformed or parsed as false), the other two when it is and
    AUTH_ISSUER or AUTH_AUDIENCE is not set or empty. *)
Theorem LoadConfig_error_comes_from_environment env e :
  LoadConfig env = inl e ->
  match e with
  | InvalidServerPort p =>
      set_to env "SERVER_PORT" Atoi p /\ ~ (1 <= p <= 65535)
  | InvalidGRPCPort p =>
      set_to env "GRPC_ENABLED" ParseBool true /\
      set_to env "GRPC_PORT" Atoi p /\ ~ (1 <= p <= 65535)
  | MaxUploadSizeTooSmall n =>
      set_to env "MAX_UPLOAD_SIZE" (fun v => ParseInt v 10 64) n /\ n < 1024
  | InvalidLogLevel l =>
      env !! "LOG_LEVEL" = Some l /\ l <> "" /\
      l ∉ ["debug"; "info"; "warn"; "error"]
  | AuthRequiresGRPC =>
      set_to env "AUTH_ENABLED" ParseBool true /\
      ~ set_to env "GRPC_ENABLED" ParseBool true
  | AuthIssuerRequired =>
      set_to env "AUTH_ENABLED" ParseBool true /\
      set_to env "GRPC_ENABLED" ParseBool true /\
      (env !! "AUTH_ISSUER" = None \/ env !! "AUTH_ISSUER" = Some "")
  | AuthAudienceRequired =>
      set_to env "AUTH_ENABLED" ParseBool true /\
      set_to env "GRPC_ENABLED" ParseBool true /\
      (env !! "AUTH_AUDIENCE" = None \/ env !! "AUTH_AUDIENCE" = Some "")
  end.
Proof.
  intros Hload. apply LoadConfig_error, Validate_rejects in Hload.
  assert (Hbool : forall key, getEnvAsBool env key false = true ->
                              set_to env key ParseBool true).
  { intros key Hon. destruct (getEnvAsBool_cases env key false) as [Hd|Hset];
      [congruence |]. now rewrite Hon in Hset. }
  assert (Hoff : forall key, getEnvAsBool env key false = false ->
                             ~ set_to env key ParseBool true).
  { intros key Hfalse (value & Hset & Hne & Hparse).
    unfold getEnvAsBool in Hfalse.
    rewrite (Getenv_set env key value Hset), Hparse in Hfalse.
    destruct (String.eqb_spec value ""); [contradiction | discriminate Hfalse]. }
  assert (Hstr : forall key, getEnv env key "" = "" ->
                             env !! key = None \/ env !! key = Some "").
  { intros key Hempty. unfold getEnv, Getenv in Hempty.
    destruct (env !! key) as [v|]; [| now left]. right. cbn in Hempty.
    destruct (String.eqb_spec v ""); cbn in Hempty; congruence. }
  destruct Hload
    as [Hport | Hport Hgrpc Hgport | Hport Hgport Hsize | Hport Hgport Hsize Hlevel
        | Hport Hsize Hlevel Hauth Hgrpc | Hport Hgport Hsize Hlevel Hauth Hgrpc Hissuer
        | Hport Hgport Hsize Hlevel Hauth Hgrpc Hissuer Haudience];
    cbn [ServerPort GRPCPort GRPCEnabled MaxUploadSize LogLevel AuthEnabled
         AuthIssuer AuthAudience fromEnv] in *.
  - split; [| assumption].
    destruct (getEnvAsInt_cases env "SERVER_PORT" 8080) as [Hd|Hset];
      [rewrite Hd in Hport; lia | exact Hset].
  - split; [now apply Hbool |]. split; [| assumption].
    destruct (getEnvAsInt_cases env "GRPC_PORT" 9090) as [Hd|Hset];
      [rewrite Hd in Hgport; lia | exact Hset].
  - split; [| assumption].
    destruct (getEnvAsInt64_cases env "MAX_UPLOAD_SIZE" (100 * 1024 * 1024))
      as [Hd|Hset]; [rewrite Hd in Hsize; lia | exact Hset].
  - destruct (getEnv_cases env "LOG_LEVEL" "info") as [Hd|[Hset Hne]];
      [| split; [exact Hset | split; assumption]].
    exfalso. apply Hlevel. rewrite Hd.
    apply elem_of_cons. right. apply elem_of_cons. now left.
  - split; [now apply Hbool | now apply Hoff].
  - split; [now apply Hbool |]. split; [now apply Hbool | now apply Hstr].
  - split; [now apply Hbool |]. split; [now apply Hbool | now apply Hstr].
Qed.

(** *** What [LoadConfig] reads *)

Lemma fromEnv_reads_variables env1 env2 :
  (forall key, key ∈ variables -> Getenv env1 key = Getenv env2 key) ->
  fromEnv env1 = fromEnv env2.
Proof.
  intros Hext.
  unfold fromEnv, getEnv, getEnvAsInt, getEnvAsInt64, getEnvAsBool,
    getEnvAsDuration.
  rewrite !Hext; [reflexivity | ..]; unfold variables;
    repeat (apply elem_of_cons; first [left; reflexivity | right]).
Qed.

Lemma Getenv_insert_ne env key k value :
  key <> k -> Getenv (<[key := value]> env) k = Getenv env k.
Proof. intros Hne. unfold Getenv. now rewrite lookup_insert_ne. Qed.

Lemma Validate_ext c1 c2 :
  ServerPort c1 = ServerPort c2 -> GRPCEnabled c1 = GRPCEnabled c2 ->
  GRPCPort c1 = GRPCPort c2 -> MaxUploadSize c1 = MaxUploadSize c2 ->
  LogLevel c1 = LogLevel c2 -> AuthEnabled c1 = AuthEnabled c2 ->
  AuthIssuer c1 = AuthIssuer c2 -> AuthAudience c1 = AuthAudience c2 ->
  Validate c1 = Validate c2.
Proof.
  intros Hport Hgrpc Hgport Hsize Hlevel Hauth Hissuer Haudience.
  unfold Validate.
  now rewrite Hport, Hgrpc, Hgport, Hsize, Hlevel, Hauth, Hissuer, Haudience.
Qed.

Lemma Validate_unvalidated_variable env key value :
  key ∈ ["SERVER_HOST"; "TIMEOUT"; "METRICS_ENABLED"; "AUTH_JWKS_URL"] ->
  Validate (fromEnv (<[key := value]> env)) = Validate (fromEnv env).
Proof.
  intros Hkey.
  repeat (apply elem_of_cons in Hkey as [->|Hkey]); [| | | | inversion Hkey];
    apply Validate_ext; cbn [fromEnv ServerPort GRPCEnabled GRPCPort
      MaxUploadSize LogLevel AuthEnabled AuthIssuer AuthAudience];
    unfold getEnv, getEnvAsInt, getEnvAsInt64, getEnvAsBool;
    rewrite Getenv_insert_ne by discriminate; reflexivity.
Qed.

End Provenance.

Lemma LoadConfig_error_comes_from_environment_witness :
  set_to (<["SERVER_PORT" := "70000"]> ∅) "SERVER_PORT" Atoi 70000 /\
  ~ (1 <= 70000 <= 65535).
Proof.
  apply (LoadConfig_error_comes_from_environment
           (<["SERVER_PORT" := "70000"]> ∅) (InvalidServerPort 70000)).
  vm_compute. reflexivity.
Defined.


(** X9. [LoadConfig] reads nothing but [os.Getenv] of its twelve
    variables: two environments in which these give the same strings
    load the same result. *)
Theorem LoadConfig_reads_only_its_variables `{GoStdlib}
    (env1 env2 : gmap string string) :
  (forall key, key ∈ variables -> Getenv env1 key = Getenv env2 key) ->
  LoadConfig env1 = LoadConfig env2.
Proof.
  intros Hext. unfold LoadConfig.
  now rewrite (fromEnv_reads_variables env1 env2 Hext).
Qed.

Lemma LoadConfig_reads_only_its_variables_witness :
  LoadConfig (<["HOME" := "/root"]> (<["SERVER_PORT" := "8443"]> ∅)) =
  LoadConfig (<["PATH" := "/usr/bin"]> (<["SERVER_PORT" := "8443"]>
               (<["LOG_LEVEL" := ""]> ∅))).
Proof.
  apply LoadConfig_reads_only_its_variables.
  intros key Hin. unfold variables in Hin.
  repeat (apply elem_of_cons in Hin as [->|Hin]; [reflexivity |]).
  inversion Hin.
Defined.

(** X10. SERVER_HOST, TIMEOUT, METRICS_ENABLED and AUTH_JWKS_URL are
    never validated: no value of one of them makes [LoadConfig] fail,
    changes its error or rescues a failing environment. *)
Theorem unvalidated_variables_never_decide_failure `{GoStdlib}
    (env : gmap string string) (key value : string) :
  key ∈ ["SERVER_HOST"; "TIMEOUT"; "METRICS_ENABLED"; "AUTH_JWKS_URL"] ->
  forall e, LoadConfig (<[key := value]> env) = inl e <-> LoadConfig env = inl e.
Proof.
  intros Hkey e. rewrite !LoadConfig_error.
  now rewrite (Validate_unvalidated_variable env key value Hkey).
Qed.

Lemma unvalidated_variables_never_decide_failure_witness :
  LoadConfig (<["TIMEOUT" := "never"]> (<["SERVER_PORT" := "0"]> ∅))
    = inl (InvalidServerPort 0) <->
  LoadConfig (<["SERVER_PORT" := "0"]> ∅) = inl (InvalidServerPort 0).
Proof.
  apply (unvalidated_variables_never_decide_failure
           (<["SERVER_PORT" := "0"]> ∅) "TIMEOUT" "never").
  apply elem_of_cons. right. apply elem_of_cons. now left.
Defined.

(** X11. A configuration loaded with authentication enabled comes from
    an environment where AUTH_ENABLED and GRPC_ENABLED parse as true and
    AUTH_ISSUER and AUTH_AUDIENCE are set to the non-empty issuer and
    audience it holds. *)
Theorem authentication_needs_its_variables `{GoStdlib}
    (env : gmap string string) (c : Config) :
  LoadConfig env = inr c -> AuthEnabled c = true ->
  set_to env "AUTH_ENABLED" ParseBool true /\
  set_to env "GRPC_ENABLED" ParseBool true /\
  env !! "AUTH_ISSUER" = Some (AuthIssuer c) /\ AuthIssuer c <> "" /\
  env !! "AUTH_AUDIENCE" = Some (AuthAudience c) /\ AuthAudience c <> "".
Proof.
  intros Hload Hauth. apply LoadConfig_success in Hload as [Hvalid ->].
  apply Validate_sound in Hvalid as (_ & _ & _ & _ & Hrule).
  destruct (Hrule Hauth) as (Hgrpc & Hissuer & Haudience).
  cbn [fromEnv AuthEnabled GRPCEnabled AuthIssuer AuthAudience] in *.
  assert (Hbool : forall key, getEnvAsBool env key false = true ->
                              set_to env key ParseBool true).
  { intros key Hon. destruct (getEnvAsBool_cases env key false) as [Hd|Hset];
      [congruence |]. now rewrite Hon in Hset. }
  split; [now apply Hbool |]. split; [now apply Hbool |].
  destruct (getEnv_cases env "AUTH_ISSUER" "") as [Hd|[Hset _]];
    [contradiction |].
  destruct (getEnv_cases env "AUTH_AUDIENCE" "") as [Hd|[Hset' _]];
    [contradiction |].
  repeat split; assumption.
Qed.

Lemma authentication_needs_its_variables_witness :
  let env : gmap string string :=
    <["AUTH_ENABLED" := "true"]> (<["GRPC_ENABLED" := "1"]>
      (<["AUTH_ISSUER" := "https://issuer.example"]>
        (<["AUTH_AUDIENCE" := "entropy"]> ∅))) in
  set_to env "AUTH_ENABLED" ParseBool true /\
  set_to env "GRPC_ENABLED" ParseBool true /\
  env !! "AUTH_ISSUER" = Some "https://issuer.example" /\
  "https://issuer.example" <> "" /\
  env !! "AUTH_AUDIENCE" = Some "entropy" /\ "entropy" <> "".
Proof.
  intros env.
  apply (authentication_needs_its_variables env (fromEnv env));
    vm_compute; reflexivity.
Defined.

(** *** The text of the errors *)

Lemma string_length_app (s t : string) :
  String.length (s ++ t) = (String.length s + String.length t)%nat.
Proof.
  induction s as [|c s IH]; [reflexivity |].
  change (S (String.length (s ++ t)) = S (String.length s + String.length t)).
  now rewrite IH.
Qed.

Lemma string_app_inj_r (s t u : string) : s ++ u = t ++ u -> s = t.
Proof.
  revert t. induction s as [|c s IH]; intros [|d t] Heq.
  - reflexivity.
  - exfalso. apply (f_equal String.length) in Heq.
    change (String.length u = S (String.length (t ++ u))) in Heq.
    rewrite string_length_app in Heq. lia.
  - exfalso. apply (f_equal String.length) in Heq.
    change (S (String.length (s ++ u)) = String.length u) in Heq.
    rewrite string_length_app in Heq. lia.
  - change (String c (s ++ u) = String d (t ++ u)) in Heq.
    inversion Heq; subst. f_equal. now apply IH.
Qed.

(** X12. The text of an error identifies it: two errors of [Validate]
    with the same text are the same error, with the same port, size or
    log level. *)
Theorem Error_identifies_the_error (e1 e2 : ConfigError) :
  Error e1 = Error e2 -> e1 = e2.
Proof.
  destruct e1 as [p1|p1|n1|l1| | |], e2 as [p2|p2|n2|l2| | |];
    cbn [Error]; intros Heq;
    try discriminate Heq; try reflexivity; inversion Heq as [Hrest].
  - f_equal. apply (inj pretty).
    exact (string_app_inj_r _ _ " (must be 1-65535)" Hrest).
  - f_equal. apply (inj pretty).
    exact (string_app_inj_r _ _ " (must be 1-65535)" Hrest).
  - f_equal. apply (inj pretty).
    exact (string_app_inj_r _ _ " (must be at least 1024 bytes)" Hrest).
  - f_equal.
    exact (string_app_inj_r _ _ " (must be debug, info, warn, or error)" Hrest).
Qed.

Lemma Error_identifies_the_error_witness :
  InvalidServerPort (70000 - 4464) = InvalidServerPort 65536.
Proof.
  apply Error_identifies_the_error. vm_compute. reflexivity.
Defined.

End ConfigProofs.

Module EngineProofs.
Import Engine.
Local Open Scope list_scope.

(** *** The Symbol Model *)

Lemma symbol_model_ok data b :
  (2 <= List.length data)%nat -> 1 <= b <= 8 ->
  symbol_model data b = inr (sample_set data b).
Proof.
  intros Hlen [Hlo Hhi].
  destruct data as [|x [|y rest]]; cbn [List.length] in Hlen; [lia | lia |].
  unfold symbol_model.
  destruct (Z.ltb_spec b 1); [lia |].
  destruct (Z.ltb_spec 8 b); [lia |]. reflexivity.
Qed.

(** A call gets past the Symbol Model only with at least two symbols and
    a bit width in [1, 8]. *)
Lemma symbol_model_inr data b ss :
  symbol_model data b = inr ss ->
  (2 <= List.length data)%nat /\ 1 <= b <= 8 /\ ss = sample_set data b.
Proof.
  unfold symbol_model. intros Hok.
  destruct data as [|x [|y rest]]; [discriminate Hok | |].
  - destruct ((b <? 1) || (8 <? b)); discriminate Hok.
  - destruct (Z.ltb_spec b 1); [discriminate Hok |].
    destruct (Z.ltb_spec 8 b); [discriminate Hok |].
    cbn [orb] in Hok. inversion Hok.
    split; [cbn [List.length]; lia |]. split; [lia | reflexivity].
Qed.

Lemma symbol_of_range b x : 0 <= b -> 0 <= symbol_of b x <= 2 ^ b - 1.
Proof.
  intros Hb. unfold symbol_of.
  replace (2 ^ b - 1) with (Z.ones b) by (rewrite Z.ones_equiv; lia).
  rewrite Z.land_ones by assumption.
  pose proof (Z.mod_pos_bound (Z.of_N (Strings.Byte.to_N x)) (2 ^ b)
                (Z.pow_pos_nonneg 2 b ltac:(lia) Hb)) as Hmod.
  rewrite Z.ones_equiv. lia.
Qed.

(** The invariant of the SampleSet holds for every one the Symbol Model
    builds: at least two symbols, a bit width in [1, 8], and every symbol
    within the range of the bit width. *)
Lemma symbol_model_invariant data b ss :
  symbol_model data b = inr ss ->
  (2 <= List.length (symbols ss))%nat /\
  1 <= bits_per_symbol ss <= 8 /\
  Forall (fun x => 0 <= x <= 2 ^ bits_per_symbol ss - 1) (symbols ss).
Proof.
  intros Hok. apply symbol_model_inr in Hok as (Hlen & Hb & ->).
  unfold sample_set. cbn [symbols bits_per_symbol].
  split; [now rewrite length_map |]. split; [assumption |].
  apply Forall_forall. intros z Hin.
  apply list_elem_of_In, in_map_iff in Hin as (x & <- & _).
  apply symbol_of_range. lia.
Qed.

(** *** Driving a battery *)

Section Battery.
Variable ss : SampleSet.

Lemma faults_dec t : {faults ss t} + {~ faults ss t}.
Proof.
  unfold faults. destruct (st_run t ss) as [h| |d].
  - right. intros [d Hd]. discriminate Hd.
  - right. intros [d Hd]. discriminate Hd.
  - left. now exists d.
Qed.

Lemma record_outcome_ok t :
  ~ faults ss t -> record_outcome t (st_run t ss) = inr (recorded ss t).
Proof.
  intros Hok. unfold recorded.
  destruct (st_run t ss) as [h| |d] eqn:Hrun; try reflexivity.
  exfalso. apply Hok. exists d. exact Hrun.
Qed.

(** Without a fault every sub-test is recorded, in the order of the
    battery. *)
Lemma run_battery_no_fault ts :
  Forall (fun t => ~ faults ss t) ts ->
  run_battery ss ts = inr (map (recorded ss) ts).
Proof.
  induction 1 as [|t ts Hok _ IH]; [reflexivity |].
  cbn [run_battery]. rewrite (record_outcome_ok t Hok), IH. reflexivity.
Qed.

(** The first fault ends the battery with the faulty sub-test named. *)
Lemma run_battery_first_fault pre t post diagnostic :
  Forall (fun t => ~ faults ss t) pre ->
  st_run t ss = Fault diagnostic ->
  run_battery ss (pre ++ t :: post) = inl (AssessmentFailed (st_name t) diagnostic).
Proof.
  intros Hpre Hrun. induction Hpre as [|p pre Hok _ IH].
  - cbn. now rewrite Hrun.
  - cbn [app run_battery]. rewrite (record_outcome_ok p Hok), IH. reflexivity.
Qed.

Lemma first_fault ts :
  Exists (faults ss) ts ->
  exists pre t post diagnostic,
    ts = pre ++ t :: post /\
    Forall (fun t => ~ faults ss t) pre /\
    st_run t ss = Fault diagnostic.
Proof.
  induction ts as [|t ts IH]; intros Hex; [inversion Hex |].
  destruct (faults_dec t) as [[d Hd]|Hok].
  - exists [], t, ts, d. repeat split; [constructor | assumption].
  - inversion Hex as [? ? Hhere|? ? Hlater]; subst; [contradiction |].
    destruct (IH Hlater) as (pre & t' & post & d & -> & Hpre & Hd).
    exists (t :: pre), t', post, d. repeat split; [now constructor | assumption].
Qed.

Lemma fault_or_not ts :
  Forall (fun t => ~ faults ss t) ts \/ Exists (faults ss) ts.
Proof.
  induction ts as [|t ts [IH|IH]].
  - left. constructor.
  - destruct (faults_dec t); [right; now constructor | left; now constructor].
  - right. now constructor.
Qed.

(** A battery that ran to its end met no fault and recorded every
    sub-test. *)
Lemma run_battery_success ts rs :
  run_battery ss ts = inr rs ->
  Forall (fun t => ~ faults ss t) ts /\ rs = map (recorded ss) ts.
Proof.
  intros Hok. destruct (fault_or_not ts) as [Hnone|Hfault].
  - split; [assumption |].
    rewrite (run_battery_no_fault ts Hnone) in Hok. now inversion Hok.
  - destruct (first_fault ts Hfault) as (pre & t & post & d & -> & Hpre & Hd).
    rewrite (run_battery_first_fault pre t post d Hpre Hd) in Hok.
    discriminate Hok.
Qed.

(** *** The minimum of the applicable estimates *)

Lemma recorded_estimate t h :
  estimate (recorded ss t) = Some h <-> st_run t ss = Estimate h.
Proof.
  unfold recorded. cbn [estimate]. destruct (st_run t ss) as [h'| |d].
  - split; intros Heq; inversion Heq; reflexivity.
  - split; intros Heq; discriminate Heq.
  - split; intros Heq; discriminate Heq.
Qed.

Lemma min_estimate_None ts :
  min_estimate (map (recorded ss) ts) = None ->
  forall t, t ∈ ts -> ~ applicable ss t.
Proof.
  induction ts as [|x ts IH]; intros Hmin t Hin; [inversion Hin |].
  cbn [map min_estimate] in Hmin.
  destruct (estimate (recorded ss x)) as [hx|] eqn:Hx.
  - destruct (min_estimate (map (recorded ss) ts)) as [m|];
      [destruct (Qle_bool hx m) |]; discriminate Hmin.
  - apply elem_of_cons in Hin as [->|Hin]; [| now apply IH].
    intros [h Hh]. apply recorded_estimate in Hh. congruence.
Qed.

Lemma min_estimate_least ts h :
  min_estimate (map (recorded ss) ts) = Some h ->
  (exists t, t ∈ ts /\ st_run t ss = Estimate h) /\
  (forall t h', t ∈ ts -> st_run t ss = Estimate h' -> (h <= h')%Q).
Proof.
  revert h. induction ts as [|x ts IH]; intros h Hmin; [discriminate Hmin |].
  cbn [map min_estimate] in Hmin.
  destruct (estimate (recorded ss x)) as [hx|] eqn:Hx.
  - apply recorded_estimate in Hx.
    destruct (min_estimate (map (recorded ss) ts)) as [m|] eqn:Hm.
    + destruct (IH m eq_refl) as [(w & Hin & Hw) Hlow].
      destruct (Qle_bool hx m) eqn:Hcmp; inversion Hmin; subst h; clear Hmin.
      * apply Qle_bool_iff in Hcmp. split.
        -- exists x. split; [apply elem_of_cons; now left | assumption].
        -- intros t h' Hin' Hest. apply elem_of_cons in Hin' as [->|Hin'].
           ++ rewrite Hx in Hest. inversion Hest; subst. apply Qle_refl.
           ++ eapply Qle_trans; [exact Hcmp | eapply Hlow; eassumption].
      * assert (Hlt : (m < hx)%Q).
        { apply Qnot_le_lt. intros Hle. apply Qle_bool_iff in Hle. congruence. }
        split.
        -- exists w. split; [apply elem_of_cons; now right | assumption].
        -- intros t h' Hin' Hest. apply elem_of_cons in Hin' as [->|Hin'].
           ++ rewrite Hx in Hest. inversion Hest; subst. now apply Qlt_le_weak.
           ++ eapply Hlow; eassumption.
    + inversion Hmin; subst h; clear Hmin. split.
      * exists x. split; [apply elem_of_cons; now left | assumption].
      * intros t h' Hin' Hest. apply elem_of_cons in Hin' as [->|Hin'].
        -- rewrite Hx in Hest. inversion Hest; subst. apply Qle_refl.
        -- exfalso. apply (min_estimate_None ts Hm t Hin'). now exists h'.
  - destruct (IH h Hmin) as [(w & Hin & Hw) Hlow]. split.
    + exists w. split; [apply elem_of_cons; now right | assumption].
    + intros t h' Hin' Hest. apply elem_of_cons in Hin' as [->|Hin'].
      * apply recorded_estimate in Hest. congruence.
      * eapply Hlow; eassumption.
Qed.

Lemma min_estimate_is_min ts h :
  min_estimate (map (recorded ss) ts) = Some h -> is_min_of_applicable ss h ts.
Proof.
  intros Hmin. destruct (min_estimate_least ts h Hmin) as [Hgiven Hleast].
  split; [exact Hleast | intros _; exact Hgiven].
Qed.

End Battery.

(** *** The entry points *)

Section Assess.
Context `{Battery}.
Implicit Types (data : list Byte.byte) (b : Z).

(** On a valid input the call is the battery followed by the
    aggregation. *)
Lemma assess_valid which data b :
  (2 <= List.length data)%nat -> 1 <= b <= 8 ->
  assess which data b =
  bind (run_battery (sample_set data b) (battery which))
       (fun rs =>
          inr {| test_type := which;
                 min_entropy := match min_estimate rs with
                                | Some h => h
                                | None => unassessed b
                                end;
                 breakdown := rs;
                 data_size := List.length data;
                 result_bits_per_symbol := b |}).
Proof.
  intros Hlen Hb. unfold assess.
  now rewrite (symbol_model_ok data b Hlen Hb).
Qed.

(** A call that succeeds had a valid input. *)
Lemma assess_inr which data b r :
  assess which data b = inr r -> (2 <= List.length data)%nat /\ 1 <= b <= 8.
Proof.
  unfold assess. intros Hok.
  destruct (symbol_model data b) as [e|ss] eqn:Hss; [discriminate Hok |].
  apply symbol_model_inr in Hss as (Hlen & Hb & _). now split.
Qed.

Lemma assess_success which data b r :
  assess which data b = inr r ->
  breakdown r = map (recorded (sample_set data b)) (battery which) /\
  is_min_of_applicable (sample_set data b) (min_entropy r) (battery which).
Proof.
  intros Hok. destruct (assess_inr which data b r Hok) as [Hlen Hb].
  rewrite (assess_valid which data b Hlen Hb) in Hok.
  destruct (run_battery (sample_set data b) (battery which)) as [e|rs] eqn:Hrun;
    [discriminate Hok |].
  apply run_battery_success in Hrun as [_ ->]. cbn [bind] in Hok.
  inversion Hok; subst r; cbn [breakdown min_entropy].
  split; [reflexivity |].
  destruct (min_estimate _) as [h|] eqn:Hmin.
  - now apply min_estimate_is_min.
  - split.
    + intros t h' Hin Hest. exfalso.
      apply (min_estimate_None _ _ Hmin t Hin). now exists h'.
    + intros Happ. exfalso. apply Exists_exists in Happ as (t & Hin & Ht).
      exact (min_estimate_None _ _ Hmin t Hin Ht).
Qed.

(** Sub-tests that are not applicable never abort a valid call: without
    a fault it returns. *)
Lemma assess_not_aborted which data b :
  (2 <= List.length data)%nat -> 1 <= b <= 8 ->
  Forall (fun t => ~ faults (sample_set data b) t) (battery which) ->
  exists r, assess which data b = inr r.
Proof.
  intros Hlen Hb Hok.
  rewrite (assess_valid which data b Hlen Hb).
  rewrite (run_battery_no_fault _ _ Hok). cbn [bind].
  eexists. reflexivity.
Qed.

End Assess.

(** The inputs of the validation tests of the service, on any battery. *)
Example AssessIID_ValidationErrors `{Battery} :
  AssessIID [] 8 = inl (InvalidInput "data cannot be empty") /\
  AssessIID [Byte.x01; Byte.x02; Byte.x03] (-1) =
    inl (InvalidInput "bits_per_symbol must be between 1 and 8") /\
  AssessIID [Byte.x01; Byte.x02; Byte.x03] 9 =
    inl (InvalidInput "bits_per_symbol must be between 1 and 8").
Proof. split; [| split]; reflexivity. Qed.

Example AssessNonIID_ValidationErrors `{Battery} :
  AssessNonIID [] 8 = inl (InvalidInput "data cannot be empty") /\
  AssessNonIID [Byte.x01; Byte.x02; Byte.x03] (-1) =
    inl (InvalidInput "bits_per_symbol must be between 1 and 8") /\
  AssessNonIID [Byte.x01; Byte.x02; Byte.x03] 9 =
    inl (InvalidInput "bits_per_symbol must be between 1 and 8").
Proof. split; [| split]; reflexivity. Qed.

(** A buffer of one symbol is invalid input on both paths. *)
Example one_symbol_is_invalid `{Battery} (x : Byte.byte) :
  AssessIID [x] 8 = inl (InvalidInput "data must contain at least 2 symbols") /\
  AssessNonIID [x] 8 = inl (InvalidInput "data must contain at least 2 symbols").
Proof. split; reflexivity. Qed.

Example windowed_two_symbols :
  @AssessNonIID Sample.windowed [Byte.x01; Byte.x02] 8 =
  inr {| test_type := NonIID;
         min_entropy := (9 # 4)%Q;
         breakdown :=
           [ {| name := "most_common_value"; estimate := Some (7 # 2)%Q |};
             {| name := "collision"; estimate := None |};
             {| name := "markov"; estimate := Some (9 # 4)%Q |};
             {| name := "compression"; estimate := None |};
             {| name := "lz78y"; estimate := Some (9 # 4)%Q |} ];
         data_size := 2;
         result_bits_per_symbol := 8 |}.
Proof. vm_compute. reflexivity. Qed.

(** With no applicable sub-test the call still returns a result, with
    every estimate absent from the breakdown. *)
Example windowed_none_applicable :
  exists h,
    @AssessIID Sample.windowed [Byte.x01; Byte.x02] 8 =
    inr {| test_type := IID;
           min_entropy := h;
           breakdown := [ {| name := "most_common_value"; estimate := None |} ];
           data_size := 2;
           result_bits_per_symbol := 8 |}.
Proof. eexists. vm_compute. reflexivity. Qed.

Example windowed_fault :
  @AssessNonIID Sample.windowed [Byte.xff; Byte.x01; Byte.x02; Byte.x03] 8 =
  inl (AssessmentFailed "compression" "did not converge").
Proof. vm_compute. reflexivity. Qed.

(** C1. For a non-empty buffer and a bit width in [1, 8], a call that
    succeeds returns the breakdown of its whole battery, with the
    estimate absent exactly for the sub-tests that are not applicable,
    and a [min_entropy] that is the minimum of the estimates of the
    applicable sub-tests: no applicable sub-test gives less, and one of
    them gives it.  Sub-tests that are not applicable do not abort the
    call: on a buffer of at least two symbols (one symbol is invalid
    input) a call without a fault succeeds, however many of its
    sub-tests are not applicable.  This holds for [AssessIID] and for
    [AssessNonIID]. *)
Theorem min_entropy_is_minimum_of_applicable `{Battery}
    (data : list Byte.byte) (b : Z) :
  data <> [] -> 1 <= b <= 8 ->
  let ss := sample_set data b in
  (forall r, AssessIID data b = inr r ->
     breakdown r = map (recorded ss) iid_tests /\
     is_min_of_applicable ss (min_entropy r) iid_tests) /\
  (forall r, AssessNonIID data b = inr r ->
     breakdown r = map (recorded ss) non_iid_tests /\
     is_min_of_applicable ss (min_entropy r) non_iid_tests) /\
  ((2 <= List.length data)%nat ->
   Forall (fun t => ~ faults ss t) iid_tests ->
   exists r, AssessIID data b = inr r) /\
  ((2 <= List.length data)%nat ->
   Forall (fun t => ~ faults ss t) non_iid_tests ->
   exists r, AssessNonIID data b = inr r).
Proof.
  intros Hdata Hb ss.
  split; [| split; [| split]].
  - intros r Hok. exact (assess_success IID data b r Hok).
  - intros r Hok. exact (assess_success NonIID data b r Hok).
  - intros Hlen. exact (assess_not_aborted IID data b Hlen Hb).
  - intros Hlen. exact (assess_not_aborted NonIID data b Hlen Hb).
Qed.

Lemma min_entropy_witness :
  exists r,
    @AssessNonIID Sample.windowed [Byte.x01; Byte.x02] 8 = inr r /\
    min_entropy r = (9 # 4)%Q /\
    is_min_of_applicable (sample_set [Byte.x01; Byte.x02] 8)
      (min_entropy r) (@non_iid_tests Sample.windowed).
Proof.
  destruct (@min_entropy_is_minimum_of_applicable Sample.windowed
              [Byte.x01; Byte.x02] 8) as (_ & Hnon & _ & _).
  - discriminate.
  - lia.
  - eexists. split; [reflexivity |]. split; [reflexivity |].
    apply Hnon. reflexivity.
Defined.

End EngineProofs.

Module ValidationScriptProofs.
Import ValidationScript.

Lemma has_prefix_app (sub s : string) :
  has_prefix sub s = true <-> exists post, s = sub ++ post.
Proof.
  revert s. induction sub as [|c sub IH]; intros s.
  - split; [intros _; now exists s | intros _; reflexivity].
  - destruct s as [|d s]; cbn [has_prefix].
    + split; [discriminate | intros [post Heq]; discriminate Heq].
    + rewrite andb_true_iff, IH. split.
      * intros [Hc [post ->]]. apply Ascii.eqb_eq in Hc as ->. now exists post.
      * intros [post Heq]. inversion Heq; subst. split.
        -- apply Ascii.eqb_refl.
        -- now exists post.
Qed.

(** [contains s sub] holds exactly when [sub] is a substring of [s]. *)
Lemma contains_substring (s sub : string) :
  contains s sub = true <-> exists pre post, s = pre ++ sub ++ post.
Proof.
  induction s as [|c s IH]; cbn [contains].
  - rewrite orb_false_r, has_prefix_app. split.
    + intros [post Heq]. now exists "", post.
    + intros (pre & post & Heq). destruct pre as [|d pre]; [| discriminate Heq].
      now exists post.
  - rewrite orb_true_iff, has_prefix_app, IH. split.
    + intros [[post Heq]|(pre & post & Heq)].
      * now exists "", post.
      * exists (String c pre), post. now rewrite Heq.
    + intros (pre & post & Heq). destruct pre as [|d pre].
      * left. now exists post.
      * right. exists pre, post. now inversion Heq.
Qed.

Lemma string_app_assoc (a b c : string) : (a ++ b) ++ c = a ++ b ++ c.
Proof.
  induction a as [|x a IH]; [reflexivity |].
  change (String x ((a ++ b) ++ c) = String x (a ++ b ++ c)). now rewrite IH.
Qed.

(** The second alternative of the first pattern is covered by the
    second pattern. *)
Lemma truerand_1bit_has_1bit (f : string) :
  contains f "truerand_1bit" = true -> contains f "1bit" = true.
Proof.
  rewrite !contains_substring. intros (pre & post & ->).
  exists (pre ++ "truerand_"), post.
  now rewrite string_app_assoc.
Qed.

Example dataset_bits_samples :
  dataset_bits "build/90b-validation/samples/truerand_4bit.bin" = 4 /\
  dataset_bits "build/90b-validation/samples/biased-random-bits.bin" = 1 /\
  dataset_bits "build/90b-validation/samples/biased-random-bytes.bin" = 8 /\
  dataset_bits "build/90b-validation/samples/normal.bin" = 8 /\
  dataset_bits "build/90b-validation/samples/8bit_from_1bit.bin" = 1.
Proof. vm_compute. repeat split. Qed.

(** X13. The bit width the script picks for a dataset is 1 exactly when
    the path contains biased-random-bits or 1bit, otherwise 4 exactly
    when it contains 4bit, and 8 in every other case; it is never
    another value. *)
Theorem dataset_bits_by_name (f : string) :
  (dataset_bits f = 1 <->
   contains f "biased-random-bits" = true \/ contains f "1bit" = true) /\
  (dataset_bits f = 4 <->
   contains f "biased-random-bits" = false /\ contains f "1bit" = false /\
   contains f "4bit" = true) /\
  (dataset_bits f = 8 <->
   contains f "biased-random-bits" = false /\ contains f "1bit" = false /\
   contains f "4bit" = false) /\
  (dataset_bits f = 1 \/ dataset_bits f = 4 \/ dataset_bits f = 8).
Proof.
  unfold dataset_bits.
  pose proof (truerand_1bit_has_1bit f) as Htrue.
  destruct (contains f "biased-random-bits"), (contains f "truerand_1bit"),
    (contains f "1bit"), (contains f "4bit"), (contains f "8bit"),
    (contains f "biased-random-bytes"); cbn [orb];
    try (specialize (Htrue eq_refl); discriminate Htrue);
    repeat split; intros; try discriminate; intuition (try discriminate; auto).
Qed.

End ValidationScriptProofs.
